(** * MapView: a shallow embedding of [src/components/MapView.tsx]

    The component reconciles React props with an imperative Leaflet map.
    Each [useEffect] of the component is embedded as a function on the
    part of the mutable state it touches (the refs of the component and
    the objects of the map widget it owns); React's commit of a render is
    a function that runs, in source order, the cleanups and then the
    bodies of the effects whose dependency lists changed.  Asynchronous
    continuations (the route fetch, the [setTimeout] callbacks) are events
    of their own, so that any interleaving with commits can be written as
    a list of events.

    Conventions.
    - Coordinates are JavaScript numbers that the component only copies;
      they are embedded as integers (micro-degrees).
    - A callback prop is embedded by the identity of the function passed
      ([Handler]); calling it appends a [Call] to a log.
    - React compares dependencies with [Object.is].  A prop that is an
      object (the station list, the user location, the selected station,
      the route destination) is embedded as its content and the identity
      of the object; a dependency on it is unchanged when both are the
      same.  Objects passed as props are not mutated in place: the
      application owns them and the component only reads them.
    - Of Leaflet's own operations, [fitBounds] throws on bounds that
      hold no point, and this is modelled; [L.polyline], [addTo],
      [remove], [flyTo] and [setLatLng] return normally.  Exceptions of
      the language itself (reading a property of [undefined] or [null])
      are modelled. *)

From Stdlib Require Import ZArith List Bool Lia.
From stdpp Require Import base decidable option list strings numbers.
Import ListNotations.

(** ** Data *)

Record LatLng := { lat : Z; lng : Z }.

#[global] Instance LatLng_eq_dec : EqDecision LatLng.
Proof. solve_decision. Defined.

(** Modelled from the spec: the [Station], [UserLocation] and [Location]
    types of [../types], which is not among the sources.  The fields are
    those the component reads; spec section 3 lists the same ones. *)
Module Station.
Record t := {
  id : string;
  name : string;
  type : string;
  capacity : Z;
  available : Z;
  status : string;
  location : LatLng
}.
End Station.

#[global] Instance Station_eq_dec : EqDecision Station.t.
Proof. solve_decision. Defined.

Definition UserLocation := LatLng.

(** The identity of a callback passed as a prop. *)
Definition Handler := nat.

(** Calls of the application's callbacks, in the order they are made. *)
Inductive Call :=
| CallStationSelect (h : Handler) (station : Station.t)
| CallDeselect (h : Handler)
| CallLocationPicked (h : Handler) (loc : LatLng)
| CallCreateRoute (h : Handler)
| CallRemoveRoute (h : Handler)
| CallReportStatus (h : Handler) (stationId : string).

(** [MapViewProps]; [isPickingLocation] has the default [false].  For
    each prop that is an object, [x_ref] is the identity of the object
    passed as [x]; it means nothing when [x] is [null]. *)
Record Props := {
  stations : list Station.t;
  userLocation : option UserLocation;
  selectedStation : option Station.t;
  routeDestination : option Station.t;
  onStationSelect : Handler;
  onDeselect : option Handler;
  showRoute : bool;
  isPickingLocation : bool;
  onLocationPicked : option Handler;
  onCreateRoute : option Handler;
  onRemoveRoute : option Handler;
  onReportStatus : option Handler;
  stations_ref : nat;
  userLocation_ref : nat;
  selectedStation_ref : nat;
  routeDestination_ref : nat
}.

(** What the closures of one render see: the props and the [mapInstance]
    state ([true] when the map exists). *)
Record Render := {
  props :> Props;
  mapInstance : bool
}.

(** Commands that move the view of the map. *)
Inductive ViewOp :=
| SetView (center : LatLng) (zoom : Z)
| FlyTo (center : LatLng) (zoom : Z)
| FitBounds (points : list LatLng).

#[global] Instance ViewOp_eq_dec : EqDecision ViewOp.
Proof. solve_decision. Defined.

(** An object prop as an entry of a dependency list: [null], or the
    object, which [Object.is] tells from any other object, also from one
    with the same content. *)
Definition object_dep {A} (o : option A) (ref : nat) : option (nat * A) :=
  (fun content => (ref, content)) <$> o.

(** React runs an effect at mount and when an entry of its dependency
    list changed.  The lists below hold, for a flag its value, for a
    callback its identity, for an object prop its [object_dep]. *)
Definition deps_changed {D} `{EqDecision D} (prev : option D) (now : D) : bool :=
  match prev with
  | None => true
  | Some d => negb (bool_decide (d = now))
  end.

(** ** The handler registry and the popup buttons (lines 47-98) *)

Module Popup.

(** [onCreateRouteRef], [onRemoveRouteRef], [onReportStatusRef],
    [onDeselectRef]. *)
Record Registry := {
  onCreateRouteRef : option Handler;
  onRemoveRouteRef : option Handler;
  onReportStatusRef : option Handler;
  onDeselectRef : option Handler
}.

(** The effect of lines 53-58. *)
Definition sync (p : Props) : Registry :=
  {| onCreateRouteRef := onCreateRoute p;
     onRemoveRouteRef := onRemoveRoute p;
     onReportStatusRef := onReportStatus p;
     onDeselectRef := onDeselect p |}.

(** A button of the popup: the attributes the listeners read, and the
    number of click listeners bound to the node. *)
Record Button := {
  data_action : option string;
  data_station_id : option string;
  listeners : nat
}.

(** The popup's element: what [querySelector] finds for [.route-btn] and
    [.report-btn]. *)
Record Container := {
  routeBtn : option Button;
  reportBtn : option Button
}.

(** [cloneNode(true)] keeps the attributes and drops the listeners. *)
Definition cloneNode (b : Button) : Button :=
  {| data_action := data_action b;
     data_station_id := data_station_id b;
     listeners := 0 |}.

Definition addEventListener (b : Button) : Button :=
  {| data_action := data_action b;
     data_station_id := data_station_id b;
     listeners := S (listeners b) |}.

Definition bindPopupButtons (c : Container) : Container :=
  {| routeBtn :=
       match routeBtn c with
       | Some b => Some (addEventListener (cloneNode b))
       | None => None
       end;
     reportBtn :=
       match reportBtn c with
       | Some b => Some (addEventListener (cloneNode b))
       | None => None
       end |}.

(** The listener of lines 68-79, run with the registry of the moment of
    the click. *)
Definition route_listener (reg : Registry) (action : option string) : list Call :=
  match bool_decide (action = Some "remove"), onRemoveRouteRef reg with
  | true, Some h => [CallRemoveRoute h]
  | _, _ =>
      match onCreateRouteRef reg with
      | Some h => [CallCreateRoute h]
      | None => []
      end
  end.

(** The listener of lines 88-96; the empty string is falsy. *)
Definition report_listener (reg : Registry) (stationId : option string) : list Call :=
  match stationId, onReportStatusRef reg with
  | Some sid, Some h => if bool_decide (sid = "") then [] else [CallReportStatus h sid]
  | _, _ => []
  end.

(** A click runs every listener bound to the node. *)
Definition click_route (reg : Registry) (b : Button) : list Call :=
  concat (replicate (listeners b) (route_listener reg (data_action b))).

Definition click_report (reg : Registry) (b : Button) : list Call :=
  concat (replicate (listeners b) (report_listener reg (data_station_id b))).

(** The four refs across renders: [useRef] gives them the handlers of the
    first render (lines 48-51); the effect of lines 53-58 runs at mount
    and when one of the four handlers changed. *)
Record Refs := {
  registry : Registry;
  committed : option Props
}.

Definition useRefs (p : Props) : Refs :=
  {| registry := sync p; committed := None |}.

Definition registry_deps (p : Props) :=
  (onCreateRoute p, onRemoveRoute p, onReportStatus p, onDeselect p).

Definition commit (p : Props) (s : Refs) : Refs :=
  {| registry :=
       if deps_changed (registry_deps <$> committed s) (registry_deps p)
       then sync p else registry s;
     committed := Some p |}.

Definition commits (ps : list Props) (s : Refs) : Refs :=
  fold_left (fun acc p => commit p acc) ps s.

End Popup.

(** ** The popup lifecycle arbiter (lines 102, 151-171) *)

Module Arbiter.

Inductive PopupEvent := PopupOpen | PopupClose.

(** [isSwitchingPopup], the pending [setTimeout] callbacks (the time each
    is due, oldest first) and the calls made so far. *)
Record State := {
  isSwitchingPopup : bool;
  timers : list nat;
  calls : list Call
}.

Definition init : State :=
  {| isSwitchingPopup := false; timers := []; calls := [] |}.

Definition delay : nat := 200.

(** Lines 152-158; rebinding the buttons is [Popup.bindPopupButtons]. *)
Definition on_popupopen (s : State) : State :=
  {| isSwitchingPopup := false; timers := timers s; calls := calls s |}.

(** Lines 161-171, at time [now]. *)
Definition on_popupclose (now : nat) (s : State) : State :=
  {| isSwitchingPopup := true;
     timers := timers s ++ [now + delay];
     calls := calls s |}.

(** The callback of lines 163-170. *)
Definition on_timeout (reg : Popup.Registry) (s : State) : State :=
  if isSwitchingPopup s then
    {| isSwitchingPopup := false;
       timers := timers s;
       calls := calls s ++
                match Popup.onDeselectRef reg with
                | Some h => [CallDeselect h]
                | None => []
                end |}
  else s.

(** The event loop runs the timeouts that are due, oldest first; one due
    at the time of an event runs before the event. *)
Fixpoint fire_due (reg : Popup.Registry) (now : nat) (pending : list nat) (s : State) : State :=
  match pending with
  | [] => {| isSwitchingPopup := isSwitchingPopup s; timers := []; calls := calls s |}
  | due :: rest =>
      if due <=? now then fire_due reg now rest (on_timeout reg s)
      else {| isSwitchingPopup := isSwitchingPopup s; timers := pending; calls := calls s |}
  end.

Definition advance (reg : Popup.Registry) (now : nat) (s : State) : State :=
  fire_due reg now (timers s) s.

Definition handle (now : nat) (e : PopupEvent) (s : State) : State :=
  match e with
  | PopupOpen => on_popupopen s
  | PopupClose => on_popupclose now s
  end.

(** A timeline of popup events, each with the time it happens. *)
Fixpoint run (reg : Popup.Registry) (timeline : list (nat * PopupEvent)) (s : State) : State :=
  match timeline with
  | [] => s
  | (now, e) :: rest => run reg rest (handle now e (advance reg now s))
  end.

(** After the last event every pending timeout runs. *)
Definition settle (reg : Popup.Registry) (s : State) : State :=
  fold_left (fun acc _ => on_timeout reg acc) (timers s)
    {| isSwitchingPopup := isSwitchingPopup s; timers := []; calls := calls s |}.

Definition is_deselect (c : Call) : bool :=
  match c with CallDeselect _ => true | _ => false end.

Definition deselections (s : State) : nat :=
  length (List.filter is_deselect (calls s)).

End Arbiter.

(** ** Station markers and coordinate picking (lines 185-209, 243-357) *)

Module Markers.

(** [customIcon] is the 40x40 icon of a selected or destination station,
    [circleIcon] the 12x12 dot.  Colours and glyphs are left out. *)
Inductive Icon := customIcon | circleIcon.

#[global] Instance Icon_eq_dec : EqDecision Icon.
Proof. solve_decision. Defined.

(** A marker as the effect builds it: position, icon, the attributes of
    the two buttons of its popup, whether a timeout is scheduled to open
    the popup, and what its click listener captured. *)
Record Marker := {
  latlng : LatLng;
  icon : Icon;
  zIndexOffset : Z;
  popup_action : string;
  popup_station_id : string;
  popup_offset : option (Z * Z);
  opens_popup : bool;
  click_station : Station.t;
  click_isPickingLocation : bool;
  click_onStationSelect : Handler
}.

(** [selectedStation?.id === station.id] *)
Definition isSelected (r : Render) (station : Station.t) : bool :=
  match selectedStation r with
  | Some s => bool_decide (Station.id s = Station.id station)
  | None => false
  end.

(** [routeDestination?.id === station.id] *)
Definition isDestination (r : Render) (station : Station.t) : bool :=
  match routeDestination r with
  | Some s => bool_decide (Station.id s = Station.id station)
  | None => false
  end.

Definition isRouteActive (r : Render) (station : Station.t) : bool :=
  showRoute r && isDestination r station.

(** The body of the [forEach] of lines 252-353 for one station. *)
Definition build (r : Render) (station : Station.t) : Marker :=
  let action := if isRouteActive r station then "remove" else "create" in
  if isSelected r station || isDestination r station then
    {| latlng := Station.location station;
       icon := customIcon;
       zIndexOffset := 1000;
       popup_action := action;
       popup_station_id := Station.id station;
       popup_offset := Some (0, -10)%Z;
       opens_popup := isSelected r station;
       click_station := station;
       click_isPickingLocation := isPickingLocation r;
       click_onStationSelect := onStationSelect r |}
  else
    {| latlng := Station.location station;
       icon := circleIcon;
       zIndexOffset := 0;
       popup_action := action;
       popup_station_id := Station.id station;
       popup_offset := None;
       opens_popup := false;
       click_station := station;
       click_isPickingLocation := isPickingLocation r;
       click_onStationSelect := onStationSelect r |}.

(** The two buttons of [popupContent] (lines 296-301), before any
    listener is bound. *)
Definition popup_content (m : Marker) : Popup.Container :=
  {| Popup.routeBtn :=
       Some {| Popup.data_action := Some (popup_action m);
               Popup.data_station_id := None;
               Popup.listeners := 0 |};
     Popup.reportBtn :=
       Some {| Popup.data_action := Some "report";
               Popup.data_station_id := Some (popup_station_id m);
               Popup.listeners := 0 |} |}.

(** The listener of lines 346-350. *)
Definition marker_click (m : Marker) : list Call :=
  if negb (click_isPickingLocation m)
  then [CallStationSelect (click_onStationSelect m) (click_station m)]
  else [].

(** The layers of the cluster group ([None] before the map is created),
    the click listeners of the map (each with the [onLocationPicked] it
    captured), the cursor of the container, the cleanup React holds for
    the picking effect, and the render last committed. *)
Record State := {
  clusterGroupRef : option (list Marker);
  click_listeners : list (nat * option Handler);
  next_listener : nat;
  cursor : string;
  picking_cleanup : option nat;
  committed : option Render
}.

(** After the map is created (lines 105-183) and before any other effect
    ran. *)
Definition init : State :=
  {| clusterGroupRef := Some [];
     click_listeners := [];
     next_listener := 0;
     cursor := "";
     picking_cleanup := None;
     committed := None |}.

Definition picking_deps (r : Render) :=
  (isPickingLocation r, onLocationPicked r, mapInstance r).

Definition stations_deps (r : Render) :=
  ((stations_ref r, stations r),
   object_dep (selectedStation r) (selectedStation_ref r),
   object_dep (routeDestination r) (routeDestination_ref r),
   showRoute r, isPickingLocation r, mapInstance r).

(** Lines 202-207: [off] removes the listener, the cursor is reset. *)
Definition picking_teardown (s : State) : State :=
  match picking_cleanup s with
  | Some l =>
      {| clusterGroupRef := clusterGroupRef s;
         click_listeners :=
           List.filter (fun e => negb (Nat.eqb (fst e) l)) (click_listeners s);
         next_listener := next_listener s;
         cursor := "";
         picking_cleanup := None;
         committed := committed s |}
  | None => s
  end.

(** Lines 186-201. *)
Definition picking_effect (r : Render) (s : State) : State :=
  if negb (mapInstance r) then s
  else if isPickingLocation r then
    {| clusterGroupRef := clusterGroupRef s;
       click_listeners := click_listeners s ++ [(next_listener s, onLocationPicked r)];
       next_listener := S (next_listener s);
       cursor := "crosshair";
       picking_cleanup := Some (next_listener s);
       committed := committed s |}
  else s.

(** Lines 244-355: [clearLayers], then one marker per station. *)
Definition stations_effect (r : Render) (s : State) : State :=
  if negb (mapInstance r) then s
  else
    match clusterGroupRef s with
    | None => s
    | Some _ =>
        {| clusterGroupRef := Some ([] ++ map (build r) (stations r));
           click_listeners := click_listeners s;
           next_listener := next_listener s;
           cursor := cursor s;
           picking_cleanup := picking_cleanup s;
           committed := committed s |}
    end.

Definition set_committed (r : Render) (s : State) : State :=
  {| clusterGroupRef := clusterGroupRef s;
     click_listeners := click_listeners s;
     next_listener := next_listener s;
     cursor := cursor s;
     picking_cleanup := picking_cleanup s;
     committed := Some r |}.

(** React's commit of render [r]: cleanups of the effects whose
    dependencies changed, then their bodies, in source order. *)
Definition commit (r : Render) (s : State) : State :=
  let run_picking := deps_changed (picking_deps <$> committed s) (picking_deps r) in
  let run_stations := deps_changed (stations_deps <$> committed s) (stations_deps r) in
  let s1 := if run_picking then picking_teardown s else s in
  let s2 := if run_picking then picking_effect r s1 else s1 in
  let s3 := if run_stations then stations_effect r s2 else s2 in
  set_committed r s3.

Definition commits (rs : list Render) (s : State) : State :=
  fold_left (fun acc r => commit r acc) rs s.

(** A click on the map at [c] runs the listeners registered for it. *)
Definition map_click (c : LatLng) (s : State) : list Call :=
  flat_map (fun e => match snd e with
                     | Some h => [CallLocationPicked h c]
                     | None => []
                     end) (click_listeners s).

Definition markers (s : State) : list Marker :=
  match clusterGroupRef s with
  | Some ms => ms
  | None => []
  end.

End Markers.

(** ** The user-location marker (lines 211-241) *)

Module UserMarker.

(** [userMarkerRef] points into the markers added to the map (by order of
    creation, each with its position); [view] logs the commands that
    moved the view. *)
Record State := {
  userMarkerRef : option nat;
  map_markers : list LatLng;
  view : list ViewOp;
  committed : option Render
}.

Definition init : State :=
  {| userMarkerRef := None; map_markers := []; view := []; committed := None |}.

Definition location_deps (r : Render) :=
  (object_dep (userLocation r) (userLocation_ref r), mapInstance r).

(** Lines 212-241. *)
Definition location_effect (r : Render) (s : State) : State :=
  if negb (mapInstance r) then s
  else
    match userLocation r with
    | None => s
    | Some loc =>
        match userMarkerRef s with
        | None =>
            {| userMarkerRef := Some (length (map_markers s));
               map_markers := map_markers s ++ [loc];
               view := view s ++
                       match selectedStation r with
                       | None => [FlyTo loc 14]
                       | Some _ => []
                       end;
               committed := committed s |}
        | Some m =>
            {| userMarkerRef := Some m;
               map_markers := <[m := loc]> (map_markers s);
               view := view s;
               committed := committed s |}
        end
    end.

Definition commit (r : Render) (s : State) : State :=
  let s1 :=
    if deps_changed (location_deps <$> committed s) (location_deps r)
    then location_effect r s else s in
  {| userMarkerRef := userMarkerRef s1;
     map_markers := map_markers s1;
     view := view s1;
     committed := Some r |}.

Definition commits (rs : list Render) (s : State) : State :=
  fold_left (fun acc r => commit r acc) rs s.

End UserMarker.

(** ** Centering on the selection (lines 446-453) *)

Module Center.

Record State := {
  view : list ViewOp;
  committed : option Render
}.

Definition init : State := {| view := []; committed := None |}.

Definition center_deps (r : Render) :=
  (object_dep (selectedStation r) (selectedStation_ref r),
   showRoute r, isPickingLocation r, mapInstance r).

(** Lines 447-453; the duration of the animation is left out. *)
Definition center_effect (r : Render) (s : State) : State :=
  match selectedStation r with
  | Some sel =>
      if mapInstance r && negb (showRoute r) && negb (isPickingLocation r)
      then {| view := view s ++ [FlyTo (Station.location sel) 16];
              committed := committed s |}
      else s
  | None => s
  end.

Definition commit (r : Render) (s : State) : State :=
  let s1 :=
    if deps_changed (center_deps <$> committed s) (center_deps r)
    then center_effect r s else s in
  {| view := view s1; committed := Some r |}.

Definition commits (rs : list Render) (s : State) : State :=
  fold_left (fun acc r => commit r acc) rs s.

End Center.

(** ** The route overlay (lines 359-444) *)

Module Route.

(** The options of [L.polyline] that tell the two overlays apart. *)
Record Polyline := {
  points : list LatLng;
  color : string;
  weight : Z;
  dashArray : option string
}.

#[global] Instance Polyline_eq_dec : EqDecision Polyline.
Proof. solve_decision. Defined.

(** Lines 394-400. *)
Definition solid (latLngs : list LatLng) : Polyline :=
  {| points := latLngs; color := "#3b82f6"; weight := 5; dashArray := None |}.

(** Lines 418-423. *)
Definition dashed (latlngs : list LatLng) : Polyline :=
  {| points := latlngs; color := "#ef4444"; weight := 4; dashArray := Some "10, 10" |}.

(** What the geometry request can produce.  [geometry] is the list of
    [[lng, lat]] pairs of [routes[0].geometry.coordinates], or [None]
    when [geometry] or [coordinates] is missing, so that reading it
    throws.  [routes] is [None] when the field is missing or falsy.
    [DataNull] is a body that parses to [null].  [Rejected] is a
    rejection of [fetch] or of [response.json]. *)
Record RouteJson := { geometry : option (list (Z * Z)) }.

Inductive Data :=
| DataNull
| DataObj (routes : option (list RouteJson)).

Inductive Outcome :=
| Rejected
| Resolved (data : Data).

(** The closure of one run of the route effect: its [isCancelled]
    variable, and the request it is waiting for with the origin and the
    destination the request was made for. *)
Record Invocation := {
  isCancelled : bool;
  request : option (LatLng * Station.t)
}.

(** [routeLayerRef] holds the identity of a polyline; [map_layers] are
    the route polylines on the map; [cleanup] is the invocation whose
    cleanup function React holds. *)
Record State := {
  routeLayerRef : option nat;
  hasFittedRouteRef : bool;
  invocations : list Invocation;
  cleanup : option nat;
  map_layers : list (nat * Polyline);
  next_layer : nat;
  view : list ViewOp;
  committed : option Render
}.

Definition init : State :=
  {| routeLayerRef := None;
     hasFittedRouteRef := false;
     invocations := [];
     cleanup := None;
     map_layers := [];
     next_layer := 0;
     view := [];
     committed := None |}.

Definition set_hasFitted (b : bool) (s : State) : State :=
  {| routeLayerRef := routeLayerRef s;
     hasFittedRouteRef := b;
     invocations := invocations s;
     cleanup := cleanup s;
     map_layers := map_layers s;
     next_layer := next_layer s;
     view := view s;
     committed := committed s |}.

Definition set_invocations (l : list Invocation) (s : State) : State :=
  {| routeLayerRef := routeLayerRef s;
     hasFittedRouteRef := hasFittedRouteRef s;
     invocations := l;
     cleanup := cleanup s;
     map_layers := map_layers s;
     next_layer := next_layer s;
     view := view s;
     committed := committed s |}.

Definition set_cleanup (c : option nat) (s : State) : State :=
  {| routeLayerRef := routeLayerRef s;
     hasFittedRouteRef := hasFittedRouteRef s;
     invocations := invocations s;
     cleanup := c;
     map_layers := map_layers s;
     next_layer := next_layer s;
     view := view s;
     committed := committed s |}.

Definition set_committed (c : option Render) (s : State) : State :=
  {| routeLayerRef := routeLayerRef s;
     hasFittedRouteRef := hasFittedRouteRef s;
     invocations := invocations s;
     cleanup := cleanup s;
     map_layers := map_layers s;
     next_layer := next_layer s;
     view := view s;
     committed := c |}.

(** [if (routeLayerRef.current) { routeLayerRef.current.remove();
    routeLayerRef.current = null; }] *)
Definition remove_route (s : State) : State :=
  match routeLayerRef s with
  | Some l =>
      {| routeLayerRef := None;
         hasFittedRouteRef := hasFittedRouteRef s;
         invocations := invocations s;
         cleanup := cleanup s;
         map_layers := List.filter (fun e => negb (Nat.eqb (fst e) l)) (map_layers s);
         next_layer := next_layer s;
         view := view s;
         committed := committed s |}
  | None => s
  end.

(** [routeLayerRef.current = L.polyline(...).addTo(mapInstance)] *)
Definition attach (pl : Polyline) (s : State) : State :=
  {| routeLayerRef := Some (next_layer s);
     hasFittedRouteRef := hasFittedRouteRef s;
     invocations := invocations s;
     cleanup := cleanup s;
     map_layers := map_layers s ++ [(next_layer s, pl)];
     next_layer := S (next_layer s);
     view := view s;
     committed := committed s |}.

(** [if (!hasFittedRouteRef.current) { mapInstance.fitBounds(...);
    hasFittedRouteRef.current = true; }].  [L.latLngBounds] of no point
    is not valid and [fitBounds] throws on it, before the view moves and
    before the flag is set: the result is [None] then. *)
Definition fit_once (bounds : list LatLng) (s : State) : option State :=
  if negb (hasFittedRouteRef s) then
    match bounds with
    | [] => None
    | _ :: _ =>
        Some {| routeLayerRef := routeLayerRef s;
                hasFittedRouteRef := true;
                invocations := invocations s;
                cleanup := cleanup s;
                map_layers := map_layers s;
                next_layer := next_layer s;
                view := view s ++ [FitBounds bounds];
                committed := committed s |}
    end
  else Some s.

(** The value of the [isCancelled] variable of invocation [i]. *)
Definition cancelled (i : nat) (s : State) : bool :=
  match invocations s !! i with
  | Some inv => isCancelled inv
  | None => true
  end.

Definition cancel (i : nat) (s : State) : State :=
  match invocations s !! i with
  | Some inv =>
      set_invocations
        (<[i := {| isCancelled := true; request := request inv |}]> (invocations s)) s
  | None => s
  end.

Definition clear_request (i : nat) (s : State) : State :=
  match invocations s !! i with
  | Some inv =>
      set_invocations
        (<[i := {| isCancelled := isCancelled inv; request := None |}]> (invocations s)) s
  | None => s
  end.

(** The effect of lines 362-364. *)
Definition reset_effect (s : State) : State := set_hasFitted false s.

(** The cleanup of lines 436-442, of invocation [i]. *)
Definition route_cleanup (i : nat) (s : State) : State :=
  remove_route (cancel i s).

(** The guard of line 379, with the values the request is made for. *)
Definition eligible (r : Render) : option (LatLng * Station.t) :=
  if showRoute r then
    match userLocation r, routeDestination r with
    | Some origin, Some dest =>
        if negb (isPickingLocation r) then Some (origin, dest) else None
    | _, _ => None
    end
  else None.

(** Lines 367-442 up to the first [await]. *)
Definition route_effect (r : Render) (s : State) : State :=
  if negb (mapInstance r) then set_cleanup None s
  else
    let s1 := remove_route s in
    let i := length (invocations s1) in
    set_cleanup (Some i)
      (set_invocations
         (invocations s1 ++ [{| isCancelled := false; request := eligible r |}]) s1).

(** The [catch] block, lines 408-430.  An exception of its own
    [fitBounds] would leave the block after the polyline is attached. *)
Definition on_catch (i : nat) (origin : LatLng) (dest : Station.t) (s : State) : State :=
  if cancelled i s then s
  else
    let latlngs := [origin; Station.location dest] in
    if negb (cancelled i s) then
      match fit_once latlngs (attach (dashed latlngs) s) with
      | Some s' => s'
      | None => attach (dashed latlngs) s
      end
    else s.

(** Lines 386-407, with the jump to the [catch] block where reading the
    payload throws, and where [fitBounds] throws after the polyline is
    attached. *)
Definition on_data (i : nat) (origin : LatLng) (dest : Station.t) (data : Data)
    (s : State) : State :=
  if cancelled i s then s
  else
    match data with
    | DataNull => on_catch i origin dest s
    | DataObj None => s
    | DataObj (Some []) => s
    | DataObj (Some (route0 :: _)) =>
        match geometry route0 with
        | None => on_catch i origin dest s
        | Some coordinates =>
            let latLngs :=
              map (fun coord => {| lat := snd coord; lng := fst coord |}) coordinates in
            if negb (cancelled i s) then
              match fit_once latLngs (attach (solid latLngs) s) with
              | Some s' => s'
              | None => on_catch i origin dest (attach (solid latLngs) s)
              end
            else s
        end
    end.

(** The request of invocation [i] settles with [o]: the rest of
    [fetchRoute] runs.  A request settles once. *)
Definition settle (i : nat) (o : Outcome) (s : State) : State :=
  match invocations s !! i with
  | Some inv =>
      match request inv with
      | Some (origin, dest) =>
          match o with
          | Rejected => on_catch i origin dest (clear_request i s)
          | Resolved data => on_data i origin dest data (clear_request i s)
          end
      | None => s
      end
  | None => s
  end.

Definition reset_deps (r : Render) :=
  (object_dep (routeDestination r) (routeDestination_ref r), showRoute r).

Definition route_deps (r : Render) :=
  (showRoute r,
   object_dep (userLocation r) (userLocation_ref r),
   object_dep (routeDestination r) (routeDestination_ref r),
   isPickingLocation r, mapInstance r).

Definition run_cleanup (s : State) : State :=
  match cleanup s with
  | Some i => route_cleanup i s
  | None => s
  end.

(** React's commit of render [r]. *)
Definition commit (r : Render) (s : State) : State :=
  let run_reset := deps_changed (reset_deps <$> committed s) (reset_deps r) in
  let run_route := deps_changed (route_deps <$> committed s) (route_deps r) in
  let s1 := if run_route then run_cleanup s else s in
  let s2 := if run_reset then reset_effect s1 else s1 in
  let s3 := if run_route then route_effect r s2 else s2 in
  set_committed (Some r) s3.

(** Unmounting runs the cleanup. *)
Definition unmount (s : State) : State :=
  set_committed None (set_cleanup None (run_cleanup s)).

Inductive Event :=
| Commit (r : Render)
| Settle (i : nat) (o : Outcome)
| Unmount.

Definition step (e : Event) (s : State) : State :=
  match e with
  | Commit r => commit r s
  | Settle i o => settle i o s
  | Unmount => unmount s
  end.

Definition run (es : list Event) (s : State) : State :=
  fold_left (fun acc e => step e acc) es s.

(** The coordinates of the request URL of line 381, in the order they
    are written: longitude first, origin first. *)
Definition waypoints (origin : LatLng) (dest : Station.t) : list (Z * Z) :=
  [(lng origin, lat origin);
   (lng (Station.location dest), lat (Station.location dest))].

(** The calls of [fitBounds] that returned, among the view commands. *)
Definition fits (s : State) : nat :=
  length (List.filter (fun o => match o with FitBounds _ => true | _ => false end) (view s)).

End Route.

(** * Properties *)

(** ** Dependency lists *)

Lemma object_dep_content {A} (o o' : option A) (ref ref' : nat) :
  object_dep o ref = object_dep o' ref' -> o = o'.
Proof.
  unfold object_dep. destruct o, o'; simpl; intros H; try discriminate; [| reflexivity].
  injection H as _ ->. reflexivity.
Qed.

Lemma stations_deps_fields (rc r : Render) :
  Markers.stations_deps rc = Markers.stations_deps r ->
  stations rc = stations r
  /\ selectedStation rc = selectedStation r
  /\ routeDestination rc = routeDestination r
  /\ showRoute rc = showRoute r
  /\ isPickingLocation rc = isPickingLocation r
  /\ mapInstance rc = mapInstance r.
Proof.
  unfold Markers.stations_deps. intros [= _ Hst Hsel Hdst Hsh Hp Hm].
  apply object_dep_content in Hsel, Hdst. repeat split; assumption.
Qed.

Lemma location_deps_fields (rc r : Render) :
  UserMarker.location_deps rc = UserMarker.location_deps r ->
  userLocation rc = userLocation r /\ mapInstance rc = mapInstance r.
Proof.
  unfold UserMarker.location_deps. intros [= Hu Hm].
  apply object_dep_content in Hu. split; assumption.
Qed.

Lemma route_deps_fields (rc r : Render) :
  Route.route_deps rc = Route.route_deps r ->
  showRoute rc = showRoute r
  /\ userLocation rc = userLocation r
  /\ routeDestination rc = routeDestination r
  /\ isPickingLocation rc = isPickingLocation r
  /\ mapInstance rc = mapInstance r.
Proof.
  unfold Route.route_deps. intros [= Hsh Hu Hd Hp Hm].
  apply object_dep_content in Hu, Hd. repeat split; assumption.
Qed.

(** ** The popup buttons *)

Definition create_calls (reg : Popup.Registry) : list Call :=
  match Popup.onCreateRouteRef reg with
  | Some h => [CallCreateRoute h]
  | None => []
  end.

Lemma bound_route_button (c : Popup.Container) (b : Popup.Button) :
  Popup.routeBtn c = Some b ->
  Popup.routeBtn (Popup.bindPopupButtons c) =
    Some {| Popup.data_action := Popup.data_action b;
            Popup.data_station_id := Popup.data_station_id b;
            Popup.listeners := 1 |}.
Proof. intros Hb. unfold Popup.bindPopupButtons. simpl. rewrite Hb. reflexivity. Qed.

Lemma route_listener_without_remove (reg : Popup.Registry) (action : option string) :
  (action = Some "remove" /\ Popup.onRemoveRouteRef reg = None) \/ action <> Some "remove" ->
  Popup.route_listener reg action = create_calls reg.
Proof.
  unfold Popup.route_listener, create_calls.
  intros [[-> Hnone] | Hne].
  - rewrite Hnone. destruct (bool_decide _); reflexivity.
  - rewrite bool_decide_eq_false_2 by exact Hne. reflexivity.
Qed.

(** C9.  After [bindPopupButtons], the route button carries one listener.
    Clicked with [data-action] equal to "remove" while no remove-route
    handler is registered, or with any other [data-action], it calls the
    create-route handler of the registry when one is registered, and
    nothing else. *)
Theorem C9_route_button_dispatch
    (reg : Popup.Registry) (c : Popup.Container) (b : Popup.Button) :
  Popup.routeBtn c = Some b ->
  (Popup.data_action b = Some "remove" /\ Popup.onRemoveRouteRef reg = None)
    \/ Popup.data_action b <> Some "remove" ->
  exists b',
    Popup.routeBtn (Popup.bindPopupButtons c) = Some b'
    /\ Popup.data_action b' = Popup.data_action b
    /\ Popup.click_route reg b' = create_calls reg.
Proof.
  intros Hb Hact. eexists. split; [apply bound_route_button, Hb |].
  split; [reflexivity |].
  unfold Popup.click_route. simpl.
  rewrite route_listener_without_remove by exact Hact.
  apply app_nil_r.
Qed.

Definition registry_without_remove : Popup.Registry :=
  {| Popup.onCreateRouteRef := Some 1;
     Popup.onRemoveRouteRef := None;
     Popup.onReportStatusRef := Some 3;
     Popup.onDeselectRef := Some 4 |}.

Definition remove_button : Popup.Button :=
  {| Popup.data_action := Some "remove";
     Popup.data_station_id := None;
     Popup.listeners := 2 |}.

Definition popup_with_remove : Popup.Container :=
  {| Popup.routeBtn := Some remove_button; Popup.reportBtn := None |}.

Lemma C9_route_button_dispatch_witness :
  exists b',
    Popup.routeBtn (Popup.bindPopupButtons popup_with_remove) = Some b'
    /\ Popup.data_action b' = Some "remove"
    /\ Popup.click_route registry_without_remove b' = [CallCreateRoute 1].
Proof.
  apply (C9_route_button_dispatch registry_without_remove popup_with_remove remove_button).
  - reflexivity.
  - left. split; reflexivity.
Defined.

(** With a remove-route handler registered, "remove" reaches it. *)
Lemma route_listener_remove (reg : Popup.Registry) (h : Handler) :
  Popup.onRemoveRouteRef reg = Some h ->
  Popup.route_listener reg (Some "remove") = [CallRemoveRoute h].
Proof. intros H. unfold Popup.route_listener. rewrite H. reflexivity. Qed.

(** ** Marker reconciliation *)

Definition highlighted (r : Render) (station : Station.t) : bool :=
  Markers.isSelected r station || Markers.isDestination r station.

Definition is_custom (m : Markers.Marker) : bool :=
  bool_decide (Markers.icon m = Markers.customIcon).

Definition is_circle (m : Markers.Marker) : bool :=
  bool_decide (Markers.icon m = Markers.circleIcon).

Lemma build_station (r : Render) (st : Station.t) :
  Markers.click_station (Markers.build r st) = st.
Proof. unfold Markers.build. destruct (_ || _); reflexivity. Qed.

Lemma build_icon (r : Render) (st : Station.t) :
  Markers.icon (Markers.build r st) =
    if highlighted r st then Markers.customIcon else Markers.circleIcon.
Proof. unfold Markers.build, highlighted. destruct (_ || _); reflexivity. Qed.

Lemma build_picking (r : Render) (st : Station.t) :
  Markers.click_isPickingLocation (Markers.build r st) = isPickingLocation r.
Proof. unfold Markers.build. destruct (_ || _); reflexivity. Qed.

Lemma is_custom_build (r : Render) (st : Station.t) :
  is_custom (Markers.build r st) = highlighted r st.
Proof. unfold is_custom. rewrite build_icon. destruct (highlighted r st); reflexivity. Qed.

Lemma is_circle_build (r : Render) (st : Station.t) :
  is_circle (Markers.build r st) = negb (highlighted r st).
Proof. unfold is_circle. rewrite build_icon. destruct (highlighted r st); reflexivity. Qed.

Definition report_calls (reg : Popup.Registry) (stationId : option string) : list Call :=
  match stationId, Popup.onReportStatusRef reg with
  | Some sid, Some h => if bool_decide (sid = "") then [] else [CallReportStatus h sid]
  | _, _ => []
  end.

(** After [bindPopupButtons] the report button carries one listener: a
    click calls the registered report handler once, with the station id
    of the button, when the id is not empty. *)
Theorem report_button_dispatch
    (reg : Popup.Registry) (c : Popup.Container) (b : Popup.Button) :
  Popup.reportBtn c = Some b ->
  exists b',
    Popup.reportBtn (Popup.bindPopupButtons c) = Some b'
    /\ Popup.click_report reg b' = report_calls reg (Popup.data_station_id b).
Proof.
  intros Hb. unfold Popup.bindPopupButtons. simpl. rewrite Hb.
  eexists. split; [reflexivity |].
  unfold Popup.click_report. simpl. apply app_nil_r.
Qed.

Definition report_button : Popup.Button :=
  {| Popup.data_action := Some "report";
     Popup.data_station_id := Some "1";
     Popup.listeners := 0 |}.

Definition popup_with_report : Popup.Container :=
  {| Popup.routeBtn := None; Popup.reportBtn := Some report_button |}.

Lemma report_button_dispatch_witness :
  exists b',
    Popup.reportBtn (Popup.bindPopupButtons popup_with_report) = Some b'
    /\ Popup.click_report registry_without_remove b' = [CallReportStatus 3 "1"].
Proof.
  exact (report_button_dispatch registry_without_remove popup_with_report report_button
           eq_refl).
Defined.

Lemma build_popup_action (r : Render) (st : Station.t) :
  Markers.popup_action (Markers.build r st) =
    if Markers.isRouteActive r st then "remove" else "create".
Proof. unfold Markers.build. destruct (_ || _); reflexivity. Qed.

(** The popup of the destination of the shown route: its route button,
    once bound, calls the registered remove-route handler, once; the
    popup of any other station calls the create-route handler. *)
Theorem popup_route_button_follows_route
    (r : Render) (st : Station.t) (reg : Popup.Registry) (h : Handler) :
  Popup.onRemoveRouteRef reg = Some h ->
  exists b',
    Popup.routeBtn (Popup.bindPopupButtons (Markers.popup_content (Markers.build r st)))
    = Some b'
    /\ Popup.click_route reg b' =
         if Markers.isRouteActive r st then [CallRemoveRoute h] else create_calls reg.
Proof.
  intros Hh. eexists. split; [reflexivity |].
  unfold Popup.click_route. simpl. rewrite app_nil_r, build_popup_action.
  destruct (Markers.isRouteActive r st).
  - apply route_listener_remove, Hh.
  - apply route_listener_without_remove. right. discriminate.
Qed.

Lemma filter_length_map {A B} (f : A -> B) (p : B -> bool) (q : A -> bool) (l : list A) :
  (forall a, p (f a) = q a) ->
  length (List.filter p (map f l)) = length (List.filter q l).
Proof.
  intros Hpq. induction l as [| a l IH]; simpl; [reflexivity |].
  rewrite Hpq. destruct (q a); simpl; rewrite IH; reflexivity.
Qed.

Lemma stations_effect_markers (r : Render) (s : Markers.State) (old : list Markers.Marker) :
  mapInstance r = true ->
  Markers.clusterGroupRef s = Some old ->
  Markers.markers (Markers.stations_effect r s) = map (Markers.build r) (stations r).
Proof.
  intros Hmap Hcg. unfold Markers.stations_effect, Markers.markers.
  rewrite Hmap, Hcg. reflexivity.
Qed.

(** The reading of the claim: a station counts as selected when its id
    is the id of the selected station, and as destination when its id is
    the id of the route destination. *)
Definition wanted_highlight (r : Render) (st : Station.t) : bool :=
  bool_decide (Station.id <$> selectedStation r = Some (Station.id st)
               \/ Station.id <$> routeDestination r = Some (Station.id st)).

Lemma has_id_decide (o : option Station.t) (st : Station.t) :
  bool_decide (Station.id <$> o = Some (Station.id st))
  = match o with
    | Some s => bool_decide (Station.id s = Station.id st)
    | None => false
    end.
Proof.
  destruct o as [s |]; simpl.
  - apply bool_decide_ext. split; congruence.
  - reflexivity.
Qed.

(** The test of lines 253 and 254 is the one of the claim. *)
Lemma highlighted_wanted (r : Render) (st : Station.t) :
  highlighted r st = wanted_highlight r st.
Proof.
  unfold highlighted, wanted_highlight, Markers.isSelected, Markers.isDestination.
  rewrite bool_decide_or, !has_id_decide. reflexivity.
Qed.

(** C7.  After a reconciliation the cluster group holds one marker per
    station, in the order of the station list; the marker of a station
    has the large icon exactly when the id of the station is the id of
    the selected station or of the route destination, and the dot
    otherwise.  So the number of large-icon markers is the number of
    stations that are selected or destination, and the number of dots is
    the number of the others. *)
Theorem C7_highlight_count
    (r : Render) (s : Markers.State) (old : list Markers.Marker) :
  mapInstance r = true ->
  Markers.clusterGroupRef s = Some old ->
  let ms := Markers.markers (Markers.stations_effect r s) in
  length (List.filter is_custom ms)
  = length (List.filter (wanted_highlight r) (stations r))
  /\ length (List.filter is_circle ms)
     = length (List.filter (fun st => negb (wanted_highlight r st)) (stations r))
  /\ length ms = length (stations r)
  /\ Forall2
       (fun st m =>
          Markers.click_station m = st
          /\ Markers.icon m =
               if wanted_highlight r st then Markers.customIcon else Markers.circleIcon)
       (stations r) ms.
Proof.
  intros Hmap Hcg ms. subst ms.
  rewrite (stations_effect_markers r s old Hmap Hcg).
  split; [apply filter_length_map; intros st;
          rewrite is_custom_build; apply highlighted_wanted |].
  split; [apply filter_length_map; intros st;
          rewrite is_circle_build, highlighted_wanted; reflexivity |].
  split; [apply length_map |].
  induction (stations r) as [| st l IH]; simpl; constructor.
  - split; [apply build_station |].
    rewrite build_icon, highlighted_wanted. reflexivity.
  - exact IH.
Qed.

Definition station_1 : Station.t :=
  {| Station.id := "1"; Station.name := "Kadikoy"; Station.type := "bus";
     Station.capacity := 10; Station.available := 3; Station.status := "active";
     Station.location := {| lat := 41000000; lng := 29000000 |} |}.

Definition station_2 : Station.t :=
  {| Station.id := "2"; Station.name := "Moda"; Station.type := "bike";
     Station.capacity := 8; Station.available := 0; Station.status := "full";
     Station.location := {| lat := 40980000; lng := 29030000 |} |}.

Definition user_at : LatLng := {| lat := 41010000; lng := 29010000 |}.

(** Sample renders: nothing selected; station 1 selected; station 1
    selected with its route shown; picking a coordinate. *)
Definition props_idle : Props :=
  {| stations := [station_1; station_2];
     userLocation := Some user_at;
     selectedStation := None;
     routeDestination := None;
     onStationSelect := 10;
     onDeselect := Some 11;
     showRoute := false;
     isPickingLocation := false;
     onLocationPicked := Some 12;
     onCreateRoute := Some 13;
     onRemoveRoute := Some 14;
     onReportStatus := Some 15;
     stations_ref := 1;
     userLocation_ref := 2;
     selectedStation_ref := 3;
     routeDestination_ref := 3 |}.

Definition props_selected : Props :=
  {| stations := [station_1; station_2];
     userLocation := Some user_at;
     selectedStation := Some station_1;
     routeDestination := None;
     onStationSelect := 10;
     onDeselect := Some 11;
     showRoute := false;
     isPickingLocation := false;
     onLocationPicked := Some 12;
     onCreateRoute := Some 13;
     onRemoveRoute := Some 14;
     onReportStatus := Some 15;
     stations_ref := 1;
     userLocation_ref := 2;
     selectedStation_ref := 3;
     routeDestination_ref := 3 |}.

Definition props_routed : Props :=
  {| stations := [station_1; station_2];
     userLocation := Some user_at;
     selectedStation := Some station_1;
     routeDestination := Some station_1;
     onStationSelect := 10;
     onDeselect := Some 11;
     showRoute := true;
     isPickingLocation := false;
     onLocationPicked := Some 12;
     onCreateRoute := Some 13;
     onRemoveRoute := Some 14;
     onReportStatus := Some 15;
     stations_ref := 1;
     userLocation_ref := 2;
     selectedStation_ref := 3;
     routeDestination_ref := 3 |}.

Definition props_picking : Props :=
  {| stations := [station_1; station_2];
     userLocation := Some user_at;
     selectedStation := None;
     routeDestination := None;
     onStationSelect := 10;
     onDeselect := Some 11;
     showRoute := false;
     isPickingLocation := true;
     onLocationPicked := Some 12;
     onCreateRoute := Some 13;
     onRemoveRoute := Some 14;
     onReportStatus := Some 15;
     stations_ref := 1;
     userLocation_ref := 2;
     selectedStation_ref := 3;
     routeDestination_ref := 3 |}.

Definition with_map (p : Props) : Render := {| props := p; mapInstance := true |}.
Definition without_map (p : Props) : Render := {| props := p; mapInstance := false |}.

Definition station_3 : Station.t :=
  {| Station.id := "3"; Station.name := "Fenerbahce"; Station.type := "scooter";
     Station.capacity := 6; Station.available := 6; Station.status := "active";
     Station.location := {| lat := 40970000; lng := 29040000 |} |}.

(** Station 1 selected while the route to station 2 is shown. *)
Definition props_two_highlights : Props :=
  {| stations := [station_1; station_3; station_2];
     userLocation := Some user_at;
     selectedStation := Some station_1;
     routeDestination := Some station_2;
     onStationSelect := 10;
     onDeselect := Some 11;
     showRoute := true;
     isPickingLocation := false;
     onLocationPicked := Some 12;
     onCreateRoute := Some 13;
     onRemoveRoute := Some 14;
     onReportStatus := Some 15;
     stations_ref := 7;
     userLocation_ref := 2;
     selectedStation_ref := 3;
     routeDestination_ref := 8 |}.

Lemma C7_highlight_count_witness :
  let ms :=
    Markers.markers (Markers.stations_effect (with_map props_two_highlights) Markers.init) in
  length (List.filter is_custom ms) = 2
  /\ length (List.filter is_circle ms) = 1
  /\ length ms = 3
  /\ Forall2
       (fun st m =>
          Markers.click_station m = st
          /\ Markers.icon m =
               if wanted_highlight (with_map props_two_highlights) st
               then Markers.customIcon else Markers.circleIcon)
       [station_1; station_3; station_2] ms.
Proof.
  exact (C7_highlight_count (with_map props_two_highlights) Markers.init [] eq_refl eq_refl).
Defined.

Example two_highlights_icons :
  map Markers.icon
    (Markers.markers (Markers.stations_effect (with_map props_two_highlights) Markers.init))
  = [Markers.customIcon; Markers.circleIcon; Markers.customIcon].
Proof. reflexivity. Qed.

Lemma popup_route_button_follows_route_witness :
  exists b',
    Popup.routeBtn
      (Popup.bindPopupButtons
         (Markers.popup_content (Markers.build (with_map props_routed) station_1)))
    = Some b'
    /\ Popup.click_route (Popup.sync props_routed) b' = [CallRemoveRoute 14].
Proof.
  exact (popup_route_button_follows_route (with_map props_routed) station_1
           (Popup.sync props_routed) 14 eq_refl).
Defined.

Example scenario_A_one_plain_marker :
  map Markers.icon
    (Markers.markers
       (Markers.commits
          [with_map {| stations := [station_1];
                       userLocation := None;
                       selectedStation := None;
                       routeDestination := None;
                       onStationSelect := 10;
                       onDeselect := None;
                       showRoute := false;
                       isPickingLocation := false;
                       onLocationPicked := None;
                       onCreateRoute := None;
                       onRemoveRoute := None;
                       onReportStatus := None;
                       stations_ref := 5;
                       userLocation_ref := 2;
                       selectedStation_ref := 3;
                       routeDestination_ref := 3 |}] Markers.init))
  = [Markers.circleIcon].
Proof. reflexivity. Qed.

(** ** Clicks *)

Definition picking_active (r : Render) : bool :=
  mapInstance r && isPickingLocation r.

(** The click listeners of the map are those of the render committed
    last. *)
Definition listeners_ok (c : option Render) (s : Markers.State) : Prop :=
  match c with
  | None => Markers.click_listeners s = [] /\ Markers.picking_cleanup s = None
  | Some rc =>
      if picking_active rc
      then exists l, Markers.click_listeners s = [(l, onLocationPicked rc)]
                     /\ Markers.picking_cleanup s = Some l
      else Markers.click_listeners s = [] /\ Markers.picking_cleanup s = None
  end.

(** The markers were built by a render that agrees with the one
    committed last on the dependencies of the station effect. *)
Definition cluster_ok (c : option Render) (s : Markers.State) : Prop :=
  (exists ms, Markers.clusterGroupRef s = Some ms)
  /\ forall rc, c = Some rc -> mapInstance rc = true ->
       exists r', Markers.stations_deps r' = Markers.stations_deps rc
                  /\ Markers.markers s = map (Markers.build r') (stations rc).

Definition markers_inv (s : Markers.State) : Prop :=
  listeners_ok (Markers.committed s) s /\ cluster_ok (Markers.committed s) s.

Lemma picking_teardown_clears (c : option Render) (s : Markers.State) :
  listeners_ok c s ->
  Markers.click_listeners (Markers.picking_teardown s) = []
  /\ Markers.picking_cleanup (Markers.picking_teardown s) = None.
Proof.
  unfold listeners_ok, Markers.picking_teardown.
  destruct c as [rc |].
  - destruct (picking_active rc).
    + intros (l & Hl & Hc). rewrite Hc. simpl. rewrite Hl. simpl.
      rewrite Nat.eqb_refl. simpl. split; reflexivity.
    + intros [Hl Hc]. rewrite Hc. split; assumption.
  - intros [Hl Hc]. rewrite Hc. split; assumption.
Qed.

Lemma picking_effect_listeners (r : Render) (s : Markers.State) :
  Markers.click_listeners s = [] ->
  Markers.picking_cleanup s = None ->
  listeners_ok (Some r) (Markers.picking_effect r s).
Proof.
  intros Hl Hc. unfold listeners_ok, picking_active, Markers.picking_effect.
  destruct (mapInstance r); simpl; [| split; assumption].
  destruct (isPickingLocation r); simpl; [| split; assumption].
  rewrite Hl. eexists. split; reflexivity.
Qed.

Lemma picking_deps_same (rc r : Render) (s : Markers.State) :
  Markers.picking_deps rc = Markers.picking_deps r ->
  listeners_ok (Some rc) s -> listeners_ok (Some r) s.
Proof.
  unfold Markers.picking_deps, listeners_ok, picking_active.
  intros [= Hp Hh Hm]. rewrite Hp, Hh, Hm. trivial.
Qed.

Lemma picking_phase (r : Render) (c : option Render) (s : Markers.State) :
  listeners_ok c s ->
  listeners_ok (Some r)
    (if deps_changed (Markers.picking_deps <$> c) (Markers.picking_deps r)
     then Markers.picking_effect r (Markers.picking_teardown s) else s).
Proof.
  intros Hok.
  destruct (deps_changed _ _) eqn:Hch.
  - destruct (picking_teardown_clears c s Hok) as [Hl Hc].
    apply picking_effect_listeners; assumption.
  - destruct c as [rc |]; simpl in Hch; [| discriminate].
    apply negb_false_iff, bool_decide_eq_true in Hch.
    exact (picking_deps_same rc r s Hch Hok).
Qed.

Lemma picking_teardown_cluster (s : Markers.State) :
  Markers.clusterGroupRef (Markers.picking_teardown s) = Markers.clusterGroupRef s.
Proof. unfold Markers.picking_teardown. destruct (Markers.picking_cleanup s); reflexivity. Qed.

Lemma picking_effect_cluster (r : Render) (s : Markers.State) :
  Markers.clusterGroupRef (Markers.picking_effect r s) = Markers.clusterGroupRef s.
Proof.
  unfold Markers.picking_effect.
  destruct (mapInstance r), (isPickingLocation r); reflexivity.
Qed.

Lemma stations_effect_listeners (r : Render) (s : Markers.State) :
  Markers.click_listeners (Markers.stations_effect r s) = Markers.click_listeners s
  /\ Markers.picking_cleanup (Markers.stations_effect r s) = Markers.picking_cleanup s.
Proof.
  unfold Markers.stations_effect.
  destruct (mapInstance r), (Markers.clusterGroupRef s); split; reflexivity.
Qed.

Lemma listeners_ok_ext (c : option Render) (s s' : Markers.State) :
  Markers.click_listeners s' = Markers.click_listeners s ->
  Markers.picking_cleanup s' = Markers.picking_cleanup s ->
  listeners_ok c s -> listeners_ok c s'.
Proof. unfold listeners_ok. intros -> ->. trivial. Qed.

Lemma cluster_ok_ext (c : option Render) (s s' : Markers.State) :
  Markers.clusterGroupRef s' = Markers.clusterGroupRef s ->
  cluster_ok c s -> cluster_ok c s'.
Proof. unfold cluster_ok, Markers.markers. intros ->. trivial. Qed.

Lemma stations_phase (r : Render) (c : option Render) (s : Markers.State) :
  cluster_ok c s ->
  cluster_ok (Some r)
    (if deps_changed (Markers.stations_deps <$> c) (Markers.stations_deps r)
     then Markers.stations_effect r s else s).
Proof.
  intros [[ms Hms] Hok].
  destruct (deps_changed _ _) eqn:Hch.
  - unfold cluster_ok, Markers.stations_effect, Markers.markers. rewrite Hms.
    destruct (mapInstance r) eqn:Hmap; simpl.
    + split; [eexists; reflexivity |].
      intros rc [= <-] _. exists r. split; reflexivity.
    + rewrite Hms. split; [eexists; reflexivity |].
      intros rc [= <-] Hmap'. congruence.
  - destruct c as [rc |]; simpl in Hch; [| discriminate].
    apply negb_false_iff, bool_decide_eq_true in Hch.
    split; [eexists; exact Hms |].
    intros rc' [= <-] Hmap.
    destruct (stations_deps_fields rc r Hch) as (Hst & _ & _ & _ & _ & Hm).
    assert (Hmap' : mapInstance rc = true) by congruence.
    destruct (Hok rc eq_refl Hmap') as (r' & Hdeps & Hmk).
    exists r'. split; [congruence |].
    rewrite Hmk, Hst. reflexivity.
Qed.

Lemma markers_commit_eq (r : Render) (s : Markers.State) :
  Markers.commit r s =
    Markers.set_committed r
      (let s2 :=
         if deps_changed (Markers.picking_deps <$> Markers.committed s)
              (Markers.picking_deps r)
         then Markers.picking_effect r (Markers.picking_teardown s) else s in
       if deps_changed (Markers.stations_deps <$> Markers.committed s)
            (Markers.stations_deps r)
       then Markers.stations_effect r s2 else s2).
Proof.
  unfold Markers.commit.
  destruct (deps_changed (Markers.picking_deps <$> _) _); reflexivity.
Qed.

Lemma commit_markers_inv (r : Render) (s : Markers.State) :
  markers_inv s ->
  markers_inv (Markers.commit r s) /\ Markers.committed (Markers.commit r s) = Some r.
Proof.
  intros [Hl Hc]. rewrite markers_commit_eq.
  split; [| reflexivity].
  apply (picking_phase r) in Hl.
  assert (Hc2 : cluster_ok (Markers.committed s)
            (if deps_changed (Markers.picking_deps <$> Markers.committed s)
                  (Markers.picking_deps r)
             then Markers.picking_effect r (Markers.picking_teardown s) else s)).
  { destruct (deps_changed _ _); [| exact Hc].
    revert Hc. apply cluster_ok_ext.
    rewrite picking_effect_cluster. apply picking_teardown_cluster. }
  apply (stations_phase r) in Hc2.
  set (s2 := if deps_changed (Markers.picking_deps <$> Markers.committed s) _
             then _ else s) in *.
  set (s3 := if deps_changed (Markers.stations_deps <$> Markers.committed s) _
             then _ else s2) in *.
  unfold markers_inv.
  change (Markers.committed (Markers.set_committed r s3)) with (Some r).
  split.
  - apply (listeners_ok_ext (Some r) s2); [| | exact Hl]; subst s3; simpl.
    + destruct (deps_changed (Markers.stations_deps <$> _) _);
        [apply (proj1 (stations_effect_listeners r s2)) | reflexivity].
    + destruct (deps_changed (Markers.stations_deps <$> _) _);
        [apply (proj2 (stations_effect_listeners r s2)) | reflexivity].
  - apply (cluster_ok_ext (Some r) s3); [reflexivity | exact Hc2].
Qed.

Lemma markers_inv_init : markers_inv Markers.init.
Proof.
  split; [split; reflexivity |].
  split; [eexists; reflexivity | intros rc [=]].
Qed.

Lemma markers_commits_snoc (rs : list Render) (r : Render) (s : Markers.State) :
  Markers.commits (rs ++ [r]) s = Markers.commit r (Markers.commits rs s).
Proof. unfold Markers.commits. rewrite fold_left_app. reflexivity. Qed.

Lemma commits_markers_inv (rs : list Render) (s : Markers.State) :
  markers_inv s -> markers_inv (Markers.commits rs s).
Proof.
  revert s. induction rs as [| r rs IH]; intros s Hs; [exact Hs |].
  apply IH, commit_markers_inv, Hs.
Qed.

Definition picked_calls (r : Render) (c : LatLng) : list Call :=
  if isPickingLocation r then
    match onLocationPicked r with
    | Some h => [CallLocationPicked h c]
    | None => []
    end
  else [].

(** C8.  After any sequence of commits that ends with render [r] (the map
    existing), a click on the marker of a station calls the station
    handler once, with that station, when [r] is not picking a
    coordinate, and calls nothing when it is; a click on the map at [c]
    calls the location handler of [r] once, with [c], when [r] is picking
    (nothing when the application passed no such handler), and nothing
    when it is not. *)
Theorem C8_clicks (rs : list Render) (r : Render) :
  mapInstance r = true ->
  let s := Markers.commits (rs ++ [r]) Markers.init in
  Forall2
    (fun st m =>
       Markers.marker_click m =
         if isPickingLocation r then []
         else [CallStationSelect (Markers.click_onStationSelect m) st])
    (stations r) (Markers.markers s)
  /\ forall c, Markers.map_click c s = picked_calls r c.
Proof.
  intros Hmap s. subst s. rewrite markers_commits_snoc.
  destruct (commit_markers_inv r (Markers.commits rs Markers.init)
              (commits_markers_inv rs _ markers_inv_init)) as [[Hl [_ Hc]] Hcom].
  remember (Markers.commit r (Markers.commits rs Markers.init)) as s' eqn:E. clear E.
  rewrite Hcom in Hl, Hc.
  split.
  - destruct (Hc r eq_refl Hmap) as (r' & Hdeps & ->).
    assert (Hp : isPickingLocation r' = isPickingLocation r)
      by apply (stations_deps_fields r' r Hdeps).
    induction (stations r) as [| st l IH]; simpl; constructor; [| exact IH].
    unfold Markers.marker_click.
    rewrite build_picking, build_station, Hp.
    destruct (isPickingLocation r); reflexivity.
  - intros c. unfold Markers.map_click, picked_calls.
    unfold listeners_ok, picking_active in Hl. rewrite Hmap in Hl. simpl in Hl.
    destruct (isPickingLocation r).
    + destruct Hl as (l & -> & _). simpl. apply app_nil_r.
    + destruct Hl as [-> _]. reflexivity.
Qed.

Lemma C8_clicks_witness :
  let s := Markers.commits
             ([without_map props_idle; with_map props_idle] ++ [with_map props_picking])
             Markers.init in
  Forall2
    (fun st m =>
       Markers.marker_click m =
         if isPickingLocation (with_map props_picking) then []
         else [CallStationSelect (Markers.click_onStationSelect m) st])
    (stations (with_map props_picking)) (Markers.markers s)
  /\ forall c, Markers.map_click c s = picked_calls (with_map props_picking) c.
Proof.
  exact (C8_clicks [without_map props_idle; with_map props_idle]
           (with_map props_picking) eq_refl).
Defined.

Example click_selects_station_1 :
  map Markers.marker_click
    (Markers.markers (Markers.commits [without_map props_idle; with_map props_idle]
                        Markers.init))
  = [[CallStationSelect 10 station_1]; [CallStationSelect 10 station_2]].
Proof. reflexivity. Qed.

Example click_while_picking :
  let s := Markers.commits [with_map props_idle; with_map props_picking] Markers.init in
  map Markers.marker_click (Markers.markers s) = [[]; []]
  /\ Markers.map_click user_at s = [CallLocationPicked 12 user_at].
Proof. split; reflexivity. Qed.

(** ** The user-location marker *)

Definition located (r : Render) : bool :=
  match userLocation r with
  | Some _ => mapInstance r
  | None => false
  end.

Definition user_inv (rs : list Render) (s : UserMarker.State) : Prop :=
  UserMarker.committed s = list.last rs
  /\ (existsb located rs = false ->
      UserMarker.userMarkerRef s = None /\ UserMarker.map_markers s = []
      /\ UserMarker.view s = [])
  /\ (existsb located rs = true ->
      UserMarker.userMarkerRef s = Some 0 /\ length (UserMarker.map_markers s) = 1)
  /\ (forall rc loc, UserMarker.committed s = Some rc -> mapInstance rc = true ->
        userLocation rc = Some loc -> UserMarker.map_markers s = [loc]).

Lemma last_existsb_false {A} (f : A -> bool) (l : list A) (x : A) :
  list.last l = Some x -> existsb f l = false -> f x = false.
Proof.
  intros Hlast Hex. apply last_Some_elem_of, list_elem_of_In in Hlast.
  destruct (f x) eqn:Hx; [| reflexivity].
  rewrite <- Hex. symmetry. apply existsb_exists. exists x. split; assumption.
Qed.

Lemma location_effect_unlocated (r : Render) (s : UserMarker.State) :
  located r = false -> UserMarker.location_effect r s = s.
Proof.
  unfold located, UserMarker.location_effect.
  destruct (userLocation r), (mapInstance r); intros H; try reflexivity; discriminate.
Qed.

Lemma located_deps (rc r : Render) :
  UserMarker.location_deps rc = UserMarker.location_deps r -> located rc = located r.
Proof.
  intros H. destruct (location_deps_fields rc r H) as [Hu Hm].
  unfold located. rewrite Hu, Hm. reflexivity.
Qed.

Lemma user_inv_commit (rs : list Render) (r : Render) (s : UserMarker.State) :
  user_inv rs s -> user_inv (rs ++ [r]) (UserMarker.commit r s).
Proof.
  intros (Hcom & Hnone & Hsome & Hpos).
  unfold user_inv, UserMarker.commit. simpl.
  rewrite last_snoc, existsb_app. simpl. rewrite orb_false_r.
  split; [reflexivity |].
  destruct (deps_changed _ _) eqn:Hch.
  - (* the effect runs *)
    destruct (located r) eqn:Hloc.
    2:{ rewrite (location_effect_unlocated r s Hloc). rewrite orb_false_r.
        split; [exact Hnone |]. split; [exact Hsome |].
        intros rc loc [= <-] Hm Hu. unfold located in Hloc. rewrite Hu, Hm in Hloc.
        discriminate. }
    rewrite orb_true_r.
    split; [discriminate |].
    unfold located in Hloc. unfold UserMarker.location_effect.
    destruct (userLocation r) as [loc |] eqn:Hu; [| discriminate].
    rewrite Hloc. simpl.
    destruct (existsb located rs) eqn:Hex.
    + destruct (Hsome eq_refl) as [Hr Hlen]. rewrite Hr. simpl.
      destruct (UserMarker.map_markers s) as [| x [| y l]]; simpl in Hlen; try discriminate.
      split; [intros _; split; reflexivity |].
      intros rc loc' [= <-] _ Hu'. rewrite Hu in Hu'. injection Hu' as <-. reflexivity.
    + destruct (Hnone eq_refl) as (Hr & Hmk & Hv). rewrite Hr, Hmk. simpl.
      split; [intros _; split; reflexivity |].
      intros rc loc' [= <-] _ Hu'. rewrite Hu in Hu'. injection Hu' as <-. reflexivity.
  - (* the dependencies did not change *)
    destruct (UserMarker.committed s) as [rc |] eqn:Hrc; simpl in Hch; [| discriminate].
    apply negb_false_iff, bool_decide_eq_true in Hch.
    assert (Hex : located r = true -> existsb located rs = true).
    { intros Hloc. destruct (existsb located rs) eqn:Hex; [reflexivity |].
      rewrite <- (located_deps rc r Hch) in Hloc.
      symmetry in Hcom. rewrite (last_existsb_false located rs rc Hcom Hex) in Hloc.
      discriminate. }
    split.
    { intros H. apply orb_false_iff in H as [H _]. exact (Hnone H). }
    split.
    { intros H. apply orb_true_iff in H as [H | H]; [exact (Hsome H) | exact (Hsome (Hex H))]. }
    intros rc' loc [= <-] Hm Hu.
    apply (Hpos rc loc eq_refl).
    + destruct (location_deps_fields rc r Hch) as [_ E]. congruence.
    + destruct (location_deps_fields rc r Hch) as [E _]. congruence.
Qed.

Lemma user_inv_commits (rs : list Render) :
  user_inv rs (UserMarker.commits rs UserMarker.init).
Proof.
  induction rs as [| r rs IH] using rev_ind.
  - split; [reflexivity |]. split; [intros _; repeat split |].
    split; [discriminate | intros rc loc [=]].
  - unfold UserMarker.commits. rewrite fold_left_app. simpl.
    apply user_inv_commit, IH.
Qed.

Definition first_flight (r : Render) (loc : LatLng) : list ViewOp :=
  match selectedStation r with
  | None => [FlyTo loc 14]
  | Some _ => []
  end.

(** C10.  Take any sequence of commits and then a render [r] with the map
    and a user location [loc].  If no earlier render had both (this is
    the first update), the marker is created at [loc], and the view flies
    to [loc] at zoom 14 exactly when [r] has no selected station.  If an
    earlier render had both, the one marker is moved to [loc] and no view
    command is issued.  Either way the map holds one user marker, at
    [loc]. *)
Theorem C10_user_location (rs : list Render) (r : Render) (loc : LatLng) :
  mapInstance r = true ->
  userLocation r = Some loc ->
  let s := UserMarker.commits rs UserMarker.init in
  let s' := UserMarker.commit r s in
  UserMarker.map_markers s' = [loc]
  /\ UserMarker.userMarkerRef s' = Some 0
  /\ if existsb located rs
     then UserMarker.userMarkerRef s = Some 0
          /\ length (UserMarker.map_markers s) = 1
          /\ UserMarker.view s' = UserMarker.view s
     else UserMarker.userMarkerRef s = None
          /\ UserMarker.map_markers s = []
          /\ UserMarker.view s' = UserMarker.view s ++ first_flight r loc.
Proof.
  intros Hmap Hu s s'.
  pose proof (user_inv_commits rs) as (Hcom & Hnone & Hsome & Hpos).
  pose proof (user_inv_commits (rs ++ [r])) as (Hcom' & _ & Hsome' & Hpos').
  unfold UserMarker.commits in Hcom', Hsome', Hpos'. rewrite fold_left_app in *.
  simpl in Hcom', Hsome', Hpos'. fold (UserMarker.commits rs UserMarker.init) in *.
  fold s in Hcom, Hnone, Hsome, Hpos, Hcom', Hsome', Hpos'.
  fold s' in Hcom', Hsome', Hpos'.
  assert (Hloc : located r = true) by (unfold located; rewrite Hu; exact Hmap).
  split; [apply (Hpos' r loc); [reflexivity | exact Hmap | exact Hu] |].
  split.
  { apply Hsome'. rewrite existsb_app. simpl. rewrite Hloc. apply orb_true_r. }
  destruct (existsb located rs) eqn:Hex.
  - destruct (Hsome eq_refl) as [Hr Hlen]. split; [exact Hr |]. split; [exact Hlen |].
    subst s'. unfold UserMarker.commit. simpl.
    destruct (deps_changed _ _); [| reflexivity].
    unfold UserMarker.location_effect. rewrite Hmap, Hu, Hr. reflexivity.
  - destruct (Hnone eq_refl) as (Hr & Hmk & Hv). split; [exact Hr |]. split; [exact Hmk |].
    subst s'. unfold UserMarker.commit. simpl.
    destruct (deps_changed _ _) eqn:Hch.
    + unfold UserMarker.location_effect. rewrite Hmap, Hu, Hr. reflexivity.
    + destruct (UserMarker.committed s) as [rc |] eqn:Hrc; simpl in Hch; [| discriminate].
      apply negb_false_iff, bool_decide_eq_true in Hch.
      rewrite <- (located_deps rc r Hch) in Hloc.
      symmetry in Hcom. rewrite (last_existsb_false located rs rc Hcom Hex) in Hloc.
      discriminate.
Qed.

Lemma C10_user_location_witness :
  let s := UserMarker.commits [without_map props_idle] UserMarker.init in
  let s' := UserMarker.commit (with_map props_idle) s in
  UserMarker.map_markers s' = [user_at]
  /\ UserMarker.userMarkerRef s' = Some 0
  /\ (UserMarker.userMarkerRef s = None
      /\ UserMarker.map_markers s = []
      /\ UserMarker.view s' = UserMarker.view s ++ [FlyTo user_at 14]).
Proof.
  exact (C10_user_location [without_map props_idle] (with_map props_idle) user_at
           eq_refl eq_refl).
Defined.

Example user_moves_without_flight :
  let moved := {| lat := 41020000; lng := 29020000 |} in
  let s := UserMarker.commits
             [without_map props_idle; with_map props_idle;
              with_map {| stations := [station_1; station_2];
                          userLocation := Some moved;
                          selectedStation := None;
                          routeDestination := None;
                          onStationSelect := 10;
                          onDeselect := Some 11;
                          showRoute := false;
                          isPickingLocation := false;
                          onLocationPicked := Some 12;
                          onCreateRoute := Some 13;
                          onRemoveRoute := Some 14;
                          onReportStatus := Some 15;
                          stations_ref := 1;
                          userLocation_ref := 4;
                          selectedStation_ref := 3;
                          routeDestination_ref := 3 |}]
             UserMarker.init in
  UserMarker.map_markers s = [moved] /\ UserMarker.view s = [FlyTo user_at 14].
Proof. split; reflexivity. Qed.

(** ** Centering on the selection *)

(** What the centering effect issues when it runs for render [r]. *)
Definition recenter (r : Render) : list ViewOp :=
  match selectedStation r with
  | Some sel =>
      if mapInstance r && negb (showRoute r) && negb (isPickingLocation r)
      then [FlyTo (Station.location sel) 16]
      else []
  | None => []
  end.

Lemma center_effect_view (r : Render) (s : Center.State) :
  Center.view (Center.center_effect r s) = Center.view s ++ recenter r.
Proof.
  unfold Center.center_effect, recenter.
  destruct (selectedStation r); [| symmetry; apply app_nil_r].
  destruct (_ && _); [reflexivity | symmetry; apply app_nil_r].
Qed.

Lemma center_commits_committed (rs : list Render) (r : Render) (s : Center.State) :
  Center.committed (Center.commits (rs ++ [r]) s) = Some r.
Proof. unfold Center.commits. rewrite fold_left_app. reflexivity. Qed.

(** The reading of the spec: while the same station stays selected (the
    same object, with the same content), a commit issues no view
    command. *)
Definition recenters_only_on_selection_change : Prop :=
  forall (rs : list Render) (r0 r : Render),
    selectedStation r = selectedStation r0 ->
    selectedStation_ref r = selectedStation_ref r0 ->
    Center.view (Center.commit r (Center.commits (rs ++ [r0]) Center.init))
    = Center.view (Center.commits (rs ++ [r0]) Center.init).

(** Hiding the route while station 1 stays selected flies to it again. *)
Lemma C6_counterexample : ~ recenters_only_on_selection_change.
Proof.
  intros H.
  specialize (H [with_map props_selected] (with_map props_routed) (with_map props_selected)
                eq_refl eq_refl).
  vm_compute in H. discriminate H.
Qed.

(** C6, amended.  The centering effect runs at mount and when the
    [selectedStation] object, the route flag, the picking flag or the
    map is another than at the previous commit.  A commit that changes
    none of the four issues no view command, whatever else changed; a
    commit that changes one of them flies once to the selected station
    at zoom 16 when a station is selected, the map exists, no route is
    shown and no coordinate is being picked, and issues nothing
    otherwise. *)
Theorem C6_recenter_on_dependency_change (rs : list Render) (r0 r : Render) :
  let s := Center.commits (rs ++ [r0]) Center.init in
  Center.view (Center.commit r s)
  = Center.view s
    ++ (if bool_decide (Center.center_deps r = Center.center_deps r0)
        then [] else recenter r)
  /\ Center.view (Center.commit r Center.init) = recenter r.
Proof.
  intros s. unfold Center.commit.
  assert (Hcom : Center.committed s = Some r0) by apply center_commits_committed.
  rewrite Hcom. simpl.
  split; [| apply center_effect_view].
  destruct (decide (Center.center_deps r = Center.center_deps r0)) as [E | E].
  - rewrite E, !bool_decide_eq_true_2 by reflexivity. simpl.
    symmetry. apply app_nil_r.
  - rewrite bool_decide_eq_false_2 by congruence.
    rewrite bool_decide_eq_false_2 by exact E. simpl.
    apply center_effect_view.
Qed.

(** Station 1 selected, with a new station list, a new position of the
    user and new handlers; the [selectedStation] object is the same. *)
Definition props_selected_refreshed : Props :=
  {| stations := [station_2; station_1];
     userLocation := Some {| lat := 41010500; lng := 29010500 |};
     selectedStation := Some station_1;
     routeDestination := None;
     onStationSelect := 20;
     onDeselect := Some 21;
     showRoute := false;
     isPickingLocation := false;
     onLocationPicked := Some 22;
     onCreateRoute := Some 23;
     onRemoveRoute := Some 24;
     onReportStatus := Some 25;
     stations_ref := 9;
     userLocation_ref := 4;
     selectedStation_ref := 3;
     routeDestination_ref := 3 |}.

(** Station 1 selected, passed as a new object with the same content. *)
Definition props_selected_new_object : Props :=
  {| stations := [station_1; station_2];
     userLocation := Some user_at;
     selectedStation := Some station_1;
     routeDestination := None;
     onStationSelect := 10;
     onDeselect := Some 11;
     showRoute := false;
     isPickingLocation := false;
     onLocationPicked := Some 12;
     onCreateRoute := Some 13;
     onRemoveRoute := Some 14;
     onReportStatus := Some 15;
     stations_ref := 1;
     userLocation_ref := 2;
     selectedStation_ref := 10;
     routeDestination_ref := 3 |}.

(** Selecting station 1 flies to it; a re-render with the same selected
    object and other inputs changed issues nothing; hiding the route
    while it stays selected flies again. *)
Lemma C6_recenter_on_dependency_change_witness :
  Center.view (Center.commit (with_map props_selected)
                 (Center.commits ([] ++ [with_map props_idle]) Center.init))
  = [] ++ [FlyTo {| lat := 41000000; lng := 29000000 |} 16]
  /\ Center.view (Center.commit (with_map props_selected_refreshed)
                    (Center.commits ([with_map props_idle] ++ [with_map props_selected])
                       Center.init))
     = [FlyTo {| lat := 41000000; lng := 29000000 |} 16] ++ []
  /\ Center.view (Center.commit (with_map props_selected)
                    (Center.commits ([] ++ [with_map props_routed]) Center.init))
     = [] ++ [FlyTo {| lat := 41000000; lng := 29000000 |} 16].
Proof.
  split; [| split].
  - exact (proj1 (C6_recenter_on_dependency_change [] (with_map props_idle)
                    (with_map props_selected))).
  - exact (proj1 (C6_recenter_on_dependency_change [with_map props_idle]
                    (with_map props_selected) (with_map props_selected_refreshed))).
  - exact (proj1 (C6_recenter_on_dependency_change [] (with_map props_routed)
                    (with_map props_selected))).
Defined.

(** The selected station passed as a new object with the same content:
    the effect runs and flies again. *)
Example new_selected_object_flies_again :
  Center.view
    (Center.commits [with_map props_selected; with_map props_selected_new_object]
       Center.init)
  = [FlyTo {| lat := 41000000; lng := 29000000 |} 16;
     FlyTo {| lat := 41000000; lng := 29000000 |} 16].
Proof. reflexivity. Qed.

Example scenario_B_flies_to_station :
  Center.view (Center.commits [with_map props_idle; with_map props_selected] Center.init)
  = [FlyTo {| lat := 41000000; lng := 29000000 |} 16].
Proof. reflexivity. Qed.

(** ** The popup lifecycle arbiter *)

Definition registry_of_idle : Popup.Registry := Popup.sync props_idle.

(** Two reconciliations 150 ms apart while a station is selected: each
    closes the popup of the marker it removes, and the new marker opens
    its popup 100 ms later (line 326).  Each close is followed by an open
    less than [delay] later. *)
Definition two_switches : list (nat * Arbiter.PopupEvent) :=
  [(0, Arbiter.PopupClose); (100, Arbiter.PopupOpen);
   (150, Arbiter.PopupClose); (250, Arbiter.PopupOpen)].

Definition followed_by_open (timeline : list (nat * Arbiter.PopupEvent)) (t : nat) : bool :=
  existsb (fun e => match e with
                    | (t', Arbiter.PopupOpen) => (t <? t') && (t' <? t + Arbiter.delay)
                    | _ => false
                    end) timeline.

Definition every_close_is_a_switch (timeline : list (nat * Arbiter.PopupEvent)) : bool :=
  forallb (fun e => match e with
                    | (t, Arbiter.PopupClose) => followed_by_open timeline t
                    | _ => true
                    end) timeline.

(** C4, at the failing timeline.  Every close of [two_switches] is
    followed by an open within the window, and the handler is still
    called once: the timeout of the first close runs at 200, after the
    second close set the flag again. *)
Theorem C4_stale_timeout_deselects :
  every_close_is_a_switch two_switches = true
  /\ Arbiter.calls (Arbiter.settle registry_of_idle
                      (Arbiter.run registry_of_idle two_switches Arbiter.init))
     = [CallDeselect 11]
  /\ Arbiter.calls (Arbiter.run registry_of_idle two_switches Arbiter.init)
     = [CallDeselect 11].
Proof. repeat split. Qed.

(** A close followed by an open before the timeout, from a state with no
    pending timeout: no call. *)
Lemma lone_switch_is_silent (reg : Popup.Registry) (t t' : nat) :
  t <= t' -> t' < t + Arbiter.delay ->
  Arbiter.calls
    (Arbiter.settle reg
       (Arbiter.run reg [(t, Arbiter.PopupClose); (t', Arbiter.PopupOpen)] Arbiter.init))
  = [].
Proof.
  intros H1 H2. simpl. unfold Arbiter.advance. simpl.
  destruct (t + Arbiter.delay <=? t') eqn:E; [apply Nat.leb_le in E; lia |].
  reflexivity.
Qed.

(** A close with no popup event after it, from a state with no pending
    timeout: one call of the registered handler. *)
Lemma lone_close_deselects_once (reg : Popup.Registry) (t : nat) (h : Handler) :
  Popup.onDeselectRef reg = Some h ->
  Arbiter.calls (Arbiter.settle reg (Arbiter.run reg [(t, Arbiter.PopupClose)] Arbiter.init))
  = [CallDeselect h].
Proof.
  intros Hh. simpl. unfold Arbiter.settle, Arbiter.on_timeout. simpl. rewrite Hh. reflexivity.
Qed.

Definition closes (timeline : list (nat * Arbiter.PopupEvent)) : nat :=
  length (List.filter (fun e => match snd e with
                                | Arbiter.PopupClose => true
                                | Arbiter.PopupOpen => false
                                end) timeline).

Lemma on_timeout_calls (reg : Popup.Registry) (s : Arbiter.State) :
  Arbiter.deselections (Arbiter.on_timeout reg s) <= Arbiter.deselections s + 1
  /\ Arbiter.timers (Arbiter.on_timeout reg s) = Arbiter.timers s.
Proof.
  unfold Arbiter.on_timeout, Arbiter.deselections.
  destruct (Arbiter.isSwitchingPopup s); simpl; [| split; [lia | reflexivity]].
  rewrite List.filter_app, length_app.
  destruct (Popup.onDeselectRef reg); simpl; split; try reflexivity; lia.
Qed.

Lemma fire_due_calls (reg : Popup.Registry) (now : nat) (pending : list nat)
    (s : Arbiter.State) :
  Arbiter.deselections (Arbiter.fire_due reg now pending s)
  + length (Arbiter.timers (Arbiter.fire_due reg now pending s))
  <= Arbiter.deselections s + length pending.
Proof.
  revert s. induction pending as [| due rest IH]; intros s; simpl.
  - unfold Arbiter.deselections. simpl. lia.
  - destruct (due <=? now).
    + specialize (IH (Arbiter.on_timeout reg s)).
      destruct (on_timeout_calls reg s) as [Hc _]. lia.
    + unfold Arbiter.deselections. simpl. lia.
Qed.

Lemma run_calls (reg : Popup.Registry) (timeline : list (nat * Arbiter.PopupEvent))
    (s : Arbiter.State) :
  Arbiter.deselections (Arbiter.run reg timeline s)
  + length (Arbiter.timers (Arbiter.run reg timeline s))
  <= Arbiter.deselections s + length (Arbiter.timers s) + closes timeline.
Proof.
  revert s. induction timeline as [| [now e] rest IH]; intros s; simpl.
  - unfold closes. simpl. lia.
  - specialize (IH (Arbiter.handle now e (Arbiter.advance reg now s))).
    pose proof (fire_due_calls reg now (Arbiter.timers s) s) as Hadv.
    fold (Arbiter.advance reg now s) in Hadv.
    unfold closes in *. simpl.
    destruct e; simpl in *.
    + unfold Arbiter.deselections in *. simpl in *. lia.
    + unfold Arbiter.deselections in *. simpl in *.
      rewrite length_app in IH. simpl in IH. lia.
Qed.

Lemma settle_calls (reg : Popup.Registry) (s : Arbiter.State) :
  Arbiter.deselections (Arbiter.settle reg s)
  <= Arbiter.deselections s + length (Arbiter.timers s).
Proof.
  unfold Arbiter.settle.
  set (s0 := {| Arbiter.isSwitchingPopup := Arbiter.isSwitchingPopup s;
                Arbiter.timers := []; Arbiter.calls := Arbiter.calls s |}).
  assert (H0 : Arbiter.deselections s0 = Arbiter.deselections s) by reflexivity.
  rewrite <- H0. clear H0. generalize s0. clear s0.
  induction (Arbiter.timers s) as [| due rest IH]; intros s0; simpl; [lia |].
  specialize (IH (Arbiter.on_timeout reg s0)).
  destruct (on_timeout_calls reg s0) as [Hc _]. lia.
Qed.

(** Whatever the timeline, the handler is called at most once per close
    event. *)
Theorem deselections_bounded_by_closes
    (reg : Popup.Registry) (timeline : list (nat * Arbiter.PopupEvent)) :
  Arbiter.deselections (Arbiter.settle reg (Arbiter.run reg timeline Arbiter.init))
  <= closes timeline.
Proof.
  pose proof (run_calls reg timeline Arbiter.init) as Hrun.
  pose proof (settle_calls reg (Arbiter.run reg timeline Arbiter.init)) as Hset.
  change (Arbiter.deselections Arbiter.init) with 0 in Hrun.
  change (length (Arbiter.timers Arbiter.init)) with 0 in Hrun.
  lia.
Qed.

(** ** The route overlay *)

(** What a settled request draws first for the pair it was made for: the
    fallback when the request rejects or reading the payload throws, the
    returned path when the first route has coordinates, nothing when the
    payload has no route. *)
Definition drawing (origin : LatLng) (dest : Station.t) (o : Route.Outcome)
    : option Route.Polyline :=
  match o with
  | Route.Rejected => Some (Route.dashed [origin; Station.location dest])
  | Route.Resolved Route.DataNull => Some (Route.dashed [origin; Station.location dest])
  | Route.Resolved (Route.DataObj None) => None
  | Route.Resolved (Route.DataObj (Some [])) => None
  | Route.Resolved (Route.DataObj (Some (route0 :: _))) =>
      match Route.geometry route0 with
      | None => Some (Route.dashed [origin; Station.location dest])
      | Some coordinates =>
          Some (Route.solid
                  (map (fun coord => {| lat := snd coord; lng := fst coord |}) coordinates))
      end
  end.

(** A fit that returns: nothing when the view is fitted already. *)
Definition fit_view (bounds : list LatLng) (s : Route.State) : Route.State :=
  if Route.hasFittedRouteRef s then s
  else {| Route.routeLayerRef := Route.routeLayerRef s;
          Route.hasFittedRouteRef := true;
          Route.invocations := Route.invocations s;
          Route.cleanup := Route.cleanup s;
          Route.map_layers := Route.map_layers s;
          Route.next_layer := Route.next_layer s;
          Route.view := Route.view s ++ [FitBounds bounds];
          Route.committed := Route.committed s |}.

Definition draw (pl : Route.Polyline) (s : Route.State) : Route.State :=
  fit_view (Route.points pl) (Route.attach pl s).

(** The fit of polyline [pl] throws: the view is not fitted yet and the
    polyline has no point. *)
Definition stumbles (pl : Route.Polyline) (s : Route.State) : bool :=
  negb (Route.hasFittedRouteRef s) && bool_decide (Route.points pl = []).

(** What the rest of [fetchRoute] does in a run that is not cancelled:
    nothing, or the polyline and the fit, or, when that fit throws, the
    polyline and then the fallback and its fit. *)
Definition completion (origin : LatLng) (dest : Station.t) (o : Route.Outcome)
    (s : Route.State) : Route.State :=
  match drawing origin dest o with
  | None => s
  | Some pl =>
      if stumbles pl s
      then draw (Route.dashed [origin; Station.location dest]) (Route.attach pl s)
      else draw pl s
  end.

(** The bounds the view is fitted to by a completion that draws. *)
Definition fit_target (origin : LatLng) (dest : Station.t) (o : Route.Outcome)
    : list LatLng :=
  match drawing origin dest o with
  | Some pl =>
      match Route.points pl with
      | [] => [origin; Station.location dest]
      | _ :: _ => Route.points pl
      end
  | None => []
  end.

(** Everything but the closures of the effect runs. *)
Definition widget (s : Route.State) :=
  (Route.map_layers s, Route.routeLayerRef s, Route.next_layer s,
   Route.view s, Route.hasFittedRouteRef s, Route.cleanup s, Route.committed s).

Lemma fit_once_returns (bounds : list LatLng) (s : Route.State) :
  bounds <> [] \/ Route.hasFittedRouteRef s = true ->
  Route.fit_once bounds s = Some (fit_view bounds s).
Proof.
  unfold Route.fit_once, fit_view.
  destruct (Route.hasFittedRouteRef s); simpl; [reflexivity |].
  intros [Hne | Hf]; [| discriminate].
  destruct bounds; [contradiction | reflexivity].
Qed.

Lemma fit_once_throws (s : Route.State) :
  Route.hasFittedRouteRef s = false -> Route.fit_once [] s = None.
Proof. intros Hf. unfold Route.fit_once. rewrite Hf. reflexivity. Qed.

Lemma cancelled_lookup (i : nat) (s : Route.State) (inv : Route.Invocation) :
  Route.invocations s !! i = Some inv -> Route.cancelled i s = Route.isCancelled inv.
Proof. intros H. unfold Route.cancelled. rewrite H. reflexivity. Qed.

Lemma clear_request_widget (i : nat) (s : Route.State) :
  widget (Route.clear_request i s) = widget s
  /\ length (Route.invocations (Route.clear_request i s)) = length (Route.invocations s).
Proof.
  unfold Route.clear_request. destruct (Route.invocations s !! i); [| split; reflexivity].
  split; [reflexivity |]. simpl. apply length_insert.
Qed.

Lemma clear_request_lookup (i j : nat) (s : Route.State) :
  Route.invocations (Route.clear_request i s) !! j =
    if decide (i = j)
    then (fun inv => {| Route.isCancelled := Route.isCancelled inv; Route.request := None |})
           <$> Route.invocations s !! j
    else Route.invocations s !! j.
Proof.
  unfold Route.clear_request.
  destruct (decide (i = j)) as [<- | Hne].
  - destruct (Route.invocations s !! i) as [inv |] eqn:E; simpl.
    + apply list_lookup_insert_eq. eapply lookup_lt_Some, E.
    + exact E.
  - destruct (Route.invocations s !! i); simpl; [| reflexivity].
    apply list_lookup_insert_ne, Hne.
Qed.

Lemma cancel_widget (i : nat) (s : Route.State) :
  widget (Route.cancel i s) = widget s
  /\ length (Route.invocations (Route.cancel i s)) = length (Route.invocations s).
Proof.
  unfold Route.cancel. destruct (Route.invocations s !! i); [| split; reflexivity].
  split; [reflexivity |]. simpl. apply length_insert.
Qed.

Lemma cancel_lookup (i j : nat) (s : Route.State) :
  Route.invocations (Route.cancel i s) !! j =
    if decide (i = j)
    then (fun inv => {| Route.isCancelled := true; Route.request := Route.request inv |})
           <$> Route.invocations s !! j
    else Route.invocations s !! j.
Proof.
  unfold Route.cancel.
  destruct (decide (i = j)) as [<- | Hne].
  - destruct (Route.invocations s !! i) as [inv |] eqn:E; simpl.
    + apply list_lookup_insert_eq. eapply lookup_lt_Some, E.
    + exact E.
  - destruct (Route.invocations s !! i); simpl; [| reflexivity].
    apply list_lookup_insert_ne, Hne.
Qed.

Lemma on_catch_spec (i : nat) (origin : LatLng) (dest : Station.t) (s : Route.State) :
  Route.on_catch i origin dest s =
    if Route.cancelled i s then s
    else draw (Route.dashed [origin; Station.location dest]) s.
Proof.
  unfold Route.on_catch. destruct (Route.cancelled i s); [reflexivity |].
  cbn [negb]. rewrite fit_once_returns by (left; discriminate). reflexivity.
Qed.

Lemma on_data_spec (i : nat) (origin : LatLng) (dest : Station.t) (data : Route.Data)
    (s : Route.State) :
  Route.on_data i origin dest data s =
    if Route.cancelled i s then s
    else completion origin dest (Route.Resolved data) s.
Proof.
  unfold Route.on_data, completion. destruct (Route.cancelled i s) eqn:Hc; [reflexivity |].
  assert (Hdash : stumbles (Route.dashed [origin; Station.location dest]) s = false).
  { unfold stumbles. simpl. apply andb_false_r. }
  destruct data as [| [[| route0 rest] |]]; cbn [drawing]; try reflexivity.
  - rewrite on_catch_spec, Hc, Hdash. reflexivity.
  - destruct (Route.geometry route0) as [coordinates |].
    2:{ rewrite on_catch_spec, Hc, Hdash. reflexivity. }
    cbn [negb]. set (latLngs := map _ coordinates).
    unfold stumbles. cbn [Route.points Route.solid].
    destruct (Route.hasFittedRouteRef s) eqn:Hf.
    + rewrite fit_once_returns by (right; exact Hf). reflexivity.
    + destruct latLngs as [| p rest'] eqn:E.
      * rewrite fit_once_throws by exact Hf.
        rewrite on_catch_spec.
        assert (Hc' : Route.cancelled i (Route.attach (Route.solid []) s) = false)
          by exact Hc.
        rewrite Hc'. reflexivity.
      * rewrite fit_once_returns by (left; discriminate). reflexivity.
Qed.

(** The continuation of a request in one equation. *)
Lemma settle_spec (i : nat) (o : Route.Outcome) (s : Route.State)
    (inv : Route.Invocation) (origin : LatLng) (dest : Station.t) :
  Route.invocations s !! i = Some inv ->
  Route.request inv = Some (origin, dest) ->
  Route.settle i o s =
    if Route.isCancelled inv then Route.clear_request i s
    else completion origin dest o (Route.clear_request i s).
Proof.
  intros Hi Hreq. unfold Route.settle. rewrite Hi, Hreq.
  assert (Hc : Route.cancelled i (Route.clear_request i s) = Route.isCancelled inv).
  { unfold Route.cancelled. rewrite clear_request_lookup.
    rewrite decide_True by reflexivity. rewrite Hi. reflexivity. }
  destruct o as [| data].
  - rewrite on_catch_spec, Hc. unfold completion, stumbles. simpl.
    rewrite andb_false_r. reflexivity.
  - rewrite on_data_spec, Hc. reflexivity.
Qed.

Lemma settle_idle (i : nat) (o : Route.Outcome) (s : Route.State) :
  (forall inv, Route.invocations s !! i = Some inv -> Route.request inv = None) ->
  Route.settle i o s = s.
Proof.
  intros H. unfold Route.settle.
  destruct (Route.invocations s !! i) as [inv |]; [| reflexivity].
  rewrite (H inv eq_refl). reflexivity.
Qed.

(** A request whose effect run is cancelled changes nothing on the map. *)
Lemma settle_cancelled (i : nat) (o : Route.Outcome) (s : Route.State) :
  Route.cancelled i s = true -> widget (Route.settle i o s) = widget s.
Proof.
  intros Hc.
  destruct (Route.invocations s !! i) as [inv |] eqn:Hi.
  2:{ rewrite settle_idle; [reflexivity |]. intros inv Hinv. congruence. }
  destruct (Route.request inv) as [[origin dest] |] eqn:Hreq.
  2:{ rewrite settle_idle; [reflexivity |]. intros inv' Hinv. congruence. }
  rewrite (settle_spec i o s inv origin dest Hi Hreq).
  rewrite (cancelled_lookup i s inv Hi) in Hc. rewrite Hc.
  apply clear_request_widget.
Qed.

(** What a completion that is not cancelled changes. *)
Lemma completion_fields (origin : LatLng) (dest : Station.t) (o : Route.Outcome)
    (s : Route.State) :
  Route.invocations (completion origin dest o s) = Route.invocations s
  /\ Route.cleanup (completion origin dest o s) = Route.cleanup s
  /\ Route.committed (completion origin dest o s) = Route.committed s
  /\ match drawing origin dest o with
     | None => completion origin dest o s = s
     | Some pl =>
         Route.hasFittedRouteRef (completion origin dest o s) = true
         /\ Route.view (completion origin dest o s) =
              Route.view s ++
              (if Route.hasFittedRouteRef s then []
               else [FitBounds (fit_target origin dest o)])
         /\ if stumbles pl s
            then Route.map_layers (completion origin dest o s) =
                   Route.map_layers s ++
                   [(Route.next_layer s, pl);
                    (S (Route.next_layer s),
                     Route.dashed [origin; Station.location dest])]
                 /\ Route.routeLayerRef (completion origin dest o s)
                    = Some (S (Route.next_layer s))
            else Route.map_layers (completion origin dest o s) =
                   Route.map_layers s ++ [(Route.next_layer s, pl)]
                 /\ Route.routeLayerRef (completion origin dest o s)
                    = Some (Route.next_layer s)
     end.
Proof.
  unfold completion, fit_target.
  destruct (drawing origin dest o) as [pl |]; [| repeat split].
  unfold stumbles, draw, fit_view.
  destruct (Route.hasFittedRouteRef s) eqn:Hf; cbn [negb andb].
  - cbn [Route.attach Route.hasFittedRouteRef]. rewrite Hf.
    cbn. rewrite app_nil_r. repeat split. exact Hf.
  - destruct (Route.points pl) as [| p rest] eqn:Hp.
    + rewrite bool_decide_eq_true_2 by reflexivity.
      cbn. rewrite Hf. cbn. rewrite <- app_assoc. repeat split.
    + rewrite bool_decide_eq_false_2 by discriminate.
      cbn. rewrite Hf. cbn. repeat split.
Qed.

(** *** The invariant of the route overlay *)

(** Every effect run but the one React holds the cleanup of is cancelled. *)
Definition others_cancelled (s : Route.State) : Prop :=
  forall i inv, Route.invocations s !! i = Some inv -> Route.cleanup s <> Some i ->
    Route.isCancelled inv = true.

(** The run React holds the cleanup of is the last one and is not
    cancelled; while its request is pending [routeLayerRef] is empty, and
    the request is the one of the render committed last. *)
Definition current_ok (s : Route.State) : Prop :=
  match Route.cleanup s with
  | None => Route.routeLayerRef s = None
  | Some i =>
      S i = length (Route.invocations s)
      /\ exists inv, Route.invocations s !! i = Some inv
         /\ Route.isCancelled inv = false
         /\ forall od, Route.request inv = Some od ->
              Route.routeLayerRef s = None
              /\ exists rc, Route.committed s = Some rc /\ mapInstance rc = true
                            /\ Route.eligible rc = Some od
  end.

Definition route_inv (s : Route.State) : Prop :=
  others_cancelled s /\ current_ok s.

(** [routeLayerRef] empty and every effect run cancelled: the state
    between a cleanup and the next effect body. *)
Definition quiescent (s : Route.State) : Prop :=
  Route.routeLayerRef s = None
  /\ forall i inv, Route.invocations s !! i = Some inv -> Route.isCancelled inv = true.

Lemma route_inv_init : route_inv Route.init.
Proof.
  split; [| reflexivity].
  intros i inv H. simpl in H. rewrite lookup_nil in H. discriminate.
Qed.

Lemma remove_route_fields (s : Route.State) :
  Route.routeLayerRef (Route.remove_route s) = None
  /\ Route.invocations (Route.remove_route s) = Route.invocations s
  /\ Route.cleanup (Route.remove_route s) = Route.cleanup s
  /\ Route.view (Route.remove_route s) = Route.view s
  /\ Route.hasFittedRouteRef (Route.remove_route s) = Route.hasFittedRouteRef s
  /\ Route.committed (Route.remove_route s) = Route.committed s.
Proof.
  unfold Route.remove_route.
  destruct (Route.routeLayerRef s) as [l |] eqn:Hl; simpl; repeat split. exact Hl.
Qed.

Lemma run_cleanup_quiescent (s : Route.State) :
  route_inv s ->
  quiescent (Route.run_cleanup s)
  /\ length (Route.invocations (Route.run_cleanup s)) = length (Route.invocations s)
  /\ Route.view (Route.run_cleanup s) = Route.view s
  /\ Route.hasFittedRouteRef (Route.run_cleanup s) = Route.hasFittedRouteRef s.
Proof.
  intros (Ho & Hc). unfold Route.run_cleanup.
  unfold current_ok in Hc.
  destruct (Route.cleanup s) as [i |] eqn:Hcl.
  - unfold Route.route_cleanup.
    destruct (cancel_widget i s) as [Hw Hlen].
    destruct (remove_route_fields (Route.cancel i s)) as (R1 & R3 & R4 & R5 & R6 & R7).
    unfold widget in Hw. injection Hw as _ _ _ Hv Hf _ _.
    split; [| rewrite R3, R5, R6; repeat split; assumption].
    split; [exact R1 |].
    intros j inv Hj. rewrite R3, cancel_lookup in Hj.
    destruct (decide (i = j)) as [<- | Hne].
    + destruct (Route.invocations s !! i); simpl in Hj; [| discriminate].
      injection Hj as <-. reflexivity.
    + apply (Ho j inv Hj). congruence.
  - split; [| repeat split].
    split; [exact Hc |].
    intros j inv Hj. apply (Ho j inv Hj). congruence.
Qed.

Lemma route_deps_eligible (rc r : Render) :
  Route.route_deps rc = Route.route_deps r ->
  Route.eligible rc = Route.eligible r /\ mapInstance rc = mapInstance r.
Proof.
  intros H. destruct (route_deps_fields rc r H) as (Hsh & Hu & Hd & Hp & Hm).
  unfold Route.eligible. rewrite Hsh, Hu, Hd, Hp. split; [reflexivity | exact Hm].
Qed.

(** The effect body, run in a quiescent state, and the commit of [r]. *)
Lemma route_effect_inv (r : Render) (s : Route.State) :
  quiescent s ->
  route_inv (Route.set_committed (Some r) (Route.route_effect r s)).
Proof.
  intros (Href & Hall). unfold Route.route_effect.
  destruct (mapInstance r) eqn:Hmap; simpl.
  - unfold Route.remove_route. rewrite Href.
    split.
    + intros j inv Hj Hne. simpl in Hj, Hne.
      apply lookup_snoc_Some in Hj as [[_ Hj] | [-> _]].
      * exact (Hall j inv Hj).
      * congruence.
    + unfold current_ok. simpl. split; [rewrite length_app; simpl; lia |].
      eexists. split; [apply list_lookup_middle; reflexivity |].
      split; [reflexivity |].
      simpl. intros od Hod. split; [exact Href |].
      exists r. repeat split; assumption.
  - split; [| exact Href].
    intros j inv Hj _. exact (Hall j inv Hj).
Qed.

Lemma quiescent_reset (s : Route.State) (b : bool) :
  quiescent s -> quiescent (if b then Route.reset_effect s else s).
Proof. destruct b; trivial. Qed.

Lemma route_inv_reset (s : Route.State) :
  route_inv s -> route_inv (Route.reset_effect s).
Proof. intros H. exact H. Qed.

Lemma route_inv_recommit (rc r : Render) (s : Route.State) :
  Route.committed s = Some rc ->
  Route.route_deps rc = Route.route_deps r ->
  route_inv s ->
  route_inv (Route.set_committed (Some r) s).
Proof.
  intros Hcom Hdeps (Ho & Hc).
  destruct (route_deps_eligible rc r Hdeps) as [He Hm].
  split; [exact Ho |].
  unfold current_ok in *. simpl.
  destruct (Route.cleanup s) as [i |]; [| exact Hc].
  destruct Hc as (Hlen & inv & Hi & Hcan & Hreq).
  split; [exact Hlen |]. exists inv.
  split; [exact Hi |]. split; [exact Hcan |].
  intros od Hod. destruct (Hreq od Hod) as (Href & rc' & Hrc' & Hm' & He').
  split; [exact Href |].
  exists r. rewrite Hcom in Hrc'. injection Hrc' as <-.
  repeat split; congruence.
Qed.

Lemma commit_eq (r : Render) (s : Route.State) :
  Route.commit r s =
    let reset := fun x : Route.State =>
      if deps_changed (Route.reset_deps <$> Route.committed s) (Route.reset_deps r)
      then Route.reset_effect x else x in
    if deps_changed (Route.route_deps <$> Route.committed s) (Route.route_deps r)
    then Route.set_committed (Some r) (Route.route_effect r (reset (Route.run_cleanup s)))
    else Route.set_committed (Some r) (reset s).
Proof.
  unfold Route.commit.
  destruct (deps_changed (Route.route_deps <$> _) _); reflexivity.
Qed.

Lemma deps_unchanged {D} `{EqDecision D} (prev : option D) (now : D) :
  deps_changed prev now = false -> prev = Some now.
Proof.
  destruct prev as [d |]; simpl; [| discriminate].
  intros H. apply negb_false_iff, bool_decide_eq_true in H. congruence.
Qed.

Lemma route_inv_commit (r : Render) (s : Route.State) :
  route_inv s -> route_inv (Route.commit r s).
Proof.
  intros Hinv. rewrite commit_eq. cbv zeta.
  destruct (deps_changed (Route.route_deps <$> _) _) eqn:Hroute.
  - apply route_effect_inv, quiescent_reset, run_cleanup_quiescent, Hinv.
  - apply deps_unchanged in Hroute.
    destruct (Route.committed s) as [rc |] eqn:Hcom; [| discriminate].
    assert (Hdeps : Route.route_deps rc = Route.route_deps r)
      by (simpl in Hroute; congruence).
    destruct (deps_changed (Route.reset_deps <$> _) _).
    + apply (route_inv_recommit rc r); [exact Hcom | exact Hdeps |].
      apply route_inv_reset, Hinv.
    + apply (route_inv_recommit rc r); assumption.
Qed.

Lemma route_inv_unmount (s : Route.State) :
  route_inv s -> route_inv (Route.unmount s).
Proof.
  intros Hinv. destruct (run_cleanup_quiescent s Hinv) as [(Href & Hall) _].
  unfold Route.unmount.
  split; [| exact Href].
  intros j inv Hj _. exact (Hall j inv Hj).
Qed.

Lemma route_inv_clear_request (i : nat) (s : Route.State) :
  route_inv s -> route_inv (Route.clear_request i s).
Proof.
  intros (Ho & Hc).
  destruct (clear_request_widget i s) as [Hw Hlen].
  unfold widget in Hw. injection Hw as Hlay Href _ _ _ Hcl Hcom.
  split.
  - intros j inv Hj Hne. rewrite clear_request_lookup in Hj. rewrite Hcl in Hne.
    destruct (decide (i = j)) as [<- | _]; [| exact (Ho j inv Hj Hne)].
    destruct (Route.invocations s !! i) as [inv0 |] eqn:Hi; simpl in Hj; [| discriminate].
    injection Hj as <-. simpl. exact (Ho i inv0 Hi Hne).
  - unfold current_ok in *. rewrite Hcl, Hlen, Href, Hcom.
    destruct (Route.cleanup s) as [c |]; [| exact Hc].
    destruct Hc as (Hlast & inv & Hi & Hcan & Hreq).
    split; [exact Hlast |].
    rewrite clear_request_lookup, Hi.
    destruct (decide (i = c)); simpl.
    + eexists. split; [reflexivity |]. split; [exact Hcan |]. intros od [=].
    + exists inv. repeat split; try assumption; apply (Hreq od); assumption.
Qed.

Lemma route_inv_completion (origin : LatLng) (dest : Station.t) (o : Route.Outcome)
    (c : nat) (s : Route.State) :
  route_inv s ->
  Route.cleanup s = Some c ->
  (forall inv, Route.invocations s !! c = Some inv -> Route.request inv = None) ->
  route_inv (completion origin dest o s).
Proof.
  intros (Ho & Hc) Hcl Hidle.
  destruct (completion_fields origin dest o s) as (D3 & D4 & _).
  split; [unfold others_cancelled; rewrite D3, D4; exact Ho |].
  unfold current_ok in *. rewrite D3, D4. rewrite Hcl in *.
  destruct Hc as (Hlast & inv & Hi & Hcan & _).
  split; [exact Hlast |]. exists inv. split; [exact Hi |]. split; [exact Hcan |].
  intros od Hod. rewrite (Hidle inv Hi) in Hod. discriminate.
Qed.

Lemma route_inv_settle (i : nat) (o : Route.Outcome) (s : Route.State) :
  route_inv s -> route_inv (Route.settle i o s).
Proof.
  intros Hinv.
  destruct (Route.invocations s !! i) as [inv |] eqn:Hi.
  2:{ rewrite settle_idle; [exact Hinv |]. intros inv Hinv'. congruence. }
  destruct (Route.request inv) as [[origin dest] |] eqn:Hreq.
  2:{ rewrite settle_idle; [exact Hinv |]. intros inv' Hinv'. congruence. }
  rewrite (settle_spec i o s inv origin dest Hi Hreq).
  pose proof (route_inv_clear_request i s Hinv) as Hclear.
  destruct (Route.isCancelled inv) eqn:Hcan; [exact Hclear |].
  destruct Hinv as (Ho & Hc).
  assert (Hcl : Route.cleanup s = Some i).
  { destruct (decide (Route.cleanup s = Some i)) as [E | E]; [exact E |].
    rewrite (Ho i inv Hi E) in Hcan. discriminate. }
  destruct (clear_request_widget i s) as [Hw _].
  unfold widget in Hw. injection Hw as _ _ _ _ _ Hcl' _.
  apply (route_inv_completion origin dest o i); [exact Hclear | congruence |].
  intros inv'. rewrite clear_request_lookup, decide_True by reflexivity.
  rewrite Hi. simpl. intros [= <-]. reflexivity.
Qed.

Lemma route_inv_step (e : Route.Event) (s : Route.State) :
  route_inv s -> route_inv (Route.step e s).
Proof.
  destruct e as [r | i o |]; simpl.
  - apply route_inv_commit.
  - apply route_inv_settle.
  - apply route_inv_unmount.
Qed.

Lemma route_inv_run (es : list Route.Event) (s : Route.State) :
  route_inv s -> route_inv (Route.run es s).
Proof.
  revert s. induction es as [| e es IH]; intros s Hs; [exact Hs |].
  apply IH, route_inv_step, Hs.
Qed.

Lemma route_inv_reachable (es : list Route.Event) : route_inv (Route.run es Route.init).
Proof. apply route_inv_run, route_inv_init. Qed.

(** *** Teardown and stale completions *)

(** The events that tear down the current run of the route effect: an
    unmount, and a commit that changed the origin, the destination, the
    route flag, the picking flag or the map. *)
Definition tears_down (e : Route.Event) (s : Route.State) : bool :=
  match e with
  | Route.Commit r =>
      deps_changed (Route.route_deps <$> Route.committed s) (Route.route_deps r)
  | Route.Settle _ _ => false
  | Route.Unmount => true
  end.

(** Effect run [i] was started and its [isCancelled] is set. *)
Definition superseded (i : nat) (s : Route.State) : Prop :=
  exists inv, Route.invocations s !! i = Some inv /\ Route.isCancelled inv = true.

Lemma remove_route_invocations (s : Route.State) :
  Route.invocations (Route.remove_route s) = Route.invocations s.
Proof. unfold Route.remove_route. destruct (Route.routeLayerRef s); reflexivity. Qed.

Lemma superseded_cancel (i c : nat) (s : Route.State) :
  superseded i s -> superseded i (Route.cancel c s).
Proof.
  intros (inv & Hi & Hcan). unfold superseded. rewrite cancel_lookup, Hi.
  destruct (decide (c = i)); simpl; eexists; split; try reflexivity. exact Hcan.
Qed.

Lemma superseded_run_cleanup (i : nat) (s : Route.State) :
  superseded i s -> superseded i (Route.run_cleanup s).
Proof.
  intros H. unfold Route.run_cleanup, Route.route_cleanup.
  destruct (Route.cleanup s) as [c |]; [| exact H].
  unfold superseded. rewrite remove_route_invocations.
  apply superseded_cancel, H.
Qed.

Lemma superseded_route_effect (i : nat) (r : Render) (s : Route.State) :
  superseded i s -> superseded i (Route.route_effect r s).
Proof.
  intros (inv & Hi & Hcan). unfold superseded, Route.route_effect.
  destruct (mapInstance r); simpl; [| eauto].
  rewrite remove_route_invocations.
  exists inv. split; [| exact Hcan].
  rewrite lookup_app_l; [exact Hi | eapply lookup_lt_Some, Hi].
Qed.

Lemma superseded_step (i : nat) (e : Route.Event) (s : Route.State) :
  superseded i s -> superseded i (Route.step e s).
Proof.
  intros H. destruct e as [r | j o |]; simpl.
  - rewrite commit_eq. cbv zeta.
    destruct (deps_changed (Route.route_deps <$> _) _).
    + apply (superseded_route_effect i r).
      destruct (deps_changed _ _); apply superseded_run_cleanup, H.
    + destruct (deps_changed _ _); exact H.
  - destruct (Route.invocations s !! j) as [inv |] eqn:Hj.
    2:{ rewrite settle_idle; [exact H |]. intros inv Hinv'. congruence. }
    destruct (Route.request inv) as [[origin dest] |] eqn:Hreq.
    2:{ rewrite settle_idle; [exact H |]. intros inv' Hinv'. congruence. }
    rewrite (settle_spec j o s inv origin dest Hj Hreq).
    assert (Hclear : superseded i (Route.clear_request j s)).
    { destruct H as (inv0 & Hi & Hcan). unfold superseded.
      rewrite clear_request_lookup, Hi.
      destruct (decide (j = i)); simpl; eexists; split; try reflexivity; exact Hcan. }
    destruct (Route.isCancelled inv); [exact Hclear |].
    unfold superseded.
    rewrite (proj1 (completion_fields origin dest o (Route.clear_request j s))).
    exact Hclear.
  - apply (superseded_run_cleanup i s H).
Qed.

Lemma superseded_run (i : nat) (es : list Route.Event) (s : Route.State) :
  superseded i s -> superseded i (Route.run es s).
Proof.
  revert s. induction es as [| e es IH]; intros s H; [exact H |].
  apply IH, superseded_step, H.
Qed.

(** What a teardown leaves: [routeLayerRef] empty, and every run started
    before it cancelled. *)
Lemma teardown_quiesces (e : Route.Event) (s : Route.State) :
  route_inv s ->
  tears_down e s = true ->
  Route.routeLayerRef (Route.step e s) = None
  /\ forall i, i < length (Route.invocations s) -> superseded i (Route.step e s).
Proof.
  intros Hinv Ht.
  destruct (run_cleanup_quiescent s Hinv) as [(Href & Hall) [Hlen _]].
  assert (Hsup : forall i, i < length (Route.invocations s) ->
                   superseded i (Route.run_cleanup s)).
  { intros i Hi. rewrite <- Hlen in Hi. apply lookup_lt_is_Some in Hi as [inv Hi].
    exists inv. split; [exact Hi | exact (Hall i inv Hi)]. }
  destruct e as [r | j o |]; simpl in *; [| discriminate |].
  - rewrite commit_eq. cbv zeta. rewrite Ht.
    set (s2 := if deps_changed _ _ then Route.reset_effect (Route.run_cleanup s)
               else Route.run_cleanup s).
    assert (Hq : quiescent s2) by (apply quiescent_reset; split; assumption).
    assert (Hsup2 : forall i, i < length (Route.invocations s) -> superseded i s2).
    { intros i Hi. subst s2.
      destruct (deps_changed (Route.reset_deps <$> Route.committed s) (Route.reset_deps r));
        apply (Hsup i Hi). }
    destruct Hq as (Href2 & _).
    split.
    + unfold Route.route_effect, Route.remove_route. rewrite Href2.
      destruct (mapInstance r); simpl; exact Href2.
    + intros i Hi.
      apply (superseded_route_effect i r s2 (Hsup2 i Hi)).
  - unfold Route.unmount. simpl. split; assumption.
Qed.

(** C1.  Let effect run [i] have been started, and let [e] tear the
    effect down (a commit that changes origin, destination, route flag,
    picking flag or map, or an unmount).  After [e] and any further
    events, the completion of the request of run [i], with any outcome,
    leaves the map as it is: no overlay is attached or removed, no view
    command is issued, the fitted flag keeps its value.  In every
    reachable state the same holds for the completion of any run but the
    most recently started one. *)
Theorem C1_superseded_fetch_is_noop
    (es1 es2 : list Route.Event) (e : Route.Event) (i : nat) (o : Route.Outcome) :
  i < length (Route.invocations (Route.run es1 Route.init)) ->
  tears_down e (Route.run es1 Route.init) = true ->
  let s := Route.run (es1 ++ e :: es2) Route.init in
  widget (Route.settle i o s) = widget s
  /\ forall j o', S j <> length (Route.invocations s) ->
       widget (Route.settle j o' s) = widget s.
Proof.
  intros Hi Ht s. split.
  - apply settle_cancelled.
    assert (Hsup : superseded i s).
    { subst s. unfold Route.run. rewrite fold_left_app. simpl.
      apply superseded_run.
      apply (teardown_quiesces e _ (route_inv_reachable es1) Ht), Hi. }
    destruct Hsup as (inv & Hinv & Hcan).
    rewrite (cancelled_lookup i s inv Hinv). exact Hcan.
  - intros j o' Hj. apply settle_cancelled.
    destruct (route_inv_reachable (es1 ++ e :: es2)) as (Ho & Hc).
    fold s in Ho, Hc.
    unfold Route.cancelled.
    destruct (Route.invocations s !! j) as [inv |] eqn:Hinv; [| reflexivity].
    apply (Ho j inv Hinv). intros Hcl.
    unfold current_ok in Hc. rewrite Hcl in Hc. destruct Hc as [Hlast _].
    congruence.
Qed.

(** A route response: one route whose path has two points. *)
Definition two_point_route : Route.Outcome :=
  Route.Resolved
    (Route.DataObj
       (Some [{| Route.geometry := Some [(29010000, 41010000); (29000000, 41000000)]%Z |}])).

Lemma C1_superseded_fetch_is_noop_witness :
  let s := Route.run ([Route.Commit (with_map props_routed)]
                        ++ Route.Commit (with_map props_idle) :: [])
             Route.init in
  widget (Route.settle 0 two_point_route s) = widget s
  /\ forall j o', S j <> length (Route.invocations s) ->
       widget (Route.settle j o' s) = widget s.
Proof.
  apply (C1_superseded_fetch_is_noop [Route.Commit (with_map props_routed)] []
           (Route.Commit (with_map props_idle)) 0 two_point_route).
  - simpl. lia.
  - reflexivity.
Defined.

(** *** The pending request *)

(** The pending request of the current effect run, with the run it
    belongs to. *)
Definition in_flight (s : Route.State) : option (nat * (LatLng * Station.t)) :=
  match Route.cleanup s with
  | Some i =>
      match Route.invocations s !! i with
      | Some inv =>
          match Route.request inv with
          | Some od => Some (i, od)
          | None => None
          end
      | None => None
      end
  | None => None
  end.

Lemma in_flight_inv (s : Route.State) (i : nat) (od : LatLng * Station.t) :
  route_inv s ->
  in_flight s = Some (i, od) ->
  exists inv, Route.cleanup s = Some i
              /\ Route.invocations s !! i = Some inv
              /\ Route.request inv = Some od
              /\ Route.isCancelled inv = false
              /\ Route.routeLayerRef s = None
              /\ exists rc, Route.committed s = Some rc /\ mapInstance rc = true
                            /\ Route.eligible rc = Some od.
Proof.
  intros (_ & Hc) Hf. unfold in_flight in Hf. unfold current_ok in Hc.
  destruct (Route.cleanup s) as [c |]; [| discriminate].
  destruct Hc as (_ & inv & Hi & Hcan & Hpending).
  rewrite Hi in Hf.
  destruct (Route.request inv) as [od' |] eqn:Hreq; [| discriminate].
  injection Hf as <- <-.
  destruct (Hpending od' eq_refl) as [Href Hrc].
  exists inv. repeat split; assumption.
Qed.

Lemma settle_in_flight (s : Route.State) (i : nat) (origin : LatLng) (dest : Station.t)
    (o : Route.Outcome) :
  route_inv s ->
  in_flight s = Some (i, (origin, dest)) ->
  Route.settle i o s = completion origin dest o (Route.clear_request i s).
Proof.
  intros Hinv Hf.
  destruct (in_flight_inv s i _ Hinv Hf) as (inv & _ & Hi & Hreq & Hcan & _).
  rewrite (settle_spec i o s inv origin dest Hi Hreq), Hcan. reflexivity.
Qed.

(** A completion either leaves the map as it is, or it is the completion
    of the pending request of the current run, finds [routeLayerRef]
    empty and draws. *)
Lemma settle_cases (i : nat) (o : Route.Outcome) (s : Route.State) :
  route_inv s ->
  widget (Route.settle i o s) = widget s
  \/ exists origin dest pl,
       in_flight s = Some (i, (origin, dest))
       /\ drawing origin dest o = Some pl
       /\ Route.routeLayerRef s = None
       /\ Route.settle i o s = completion origin dest o (Route.clear_request i s).
Proof.
  intros (Ho & Hc).
  destruct (Route.cancelled i s) eqn:Hcan; [left; apply settle_cancelled, Hcan |].
  unfold Route.cancelled in Hcan.
  destruct (Route.invocations s !! i) as [inv |] eqn:Hi; [| discriminate].
  destruct (Route.request inv) as [[origin dest] |] eqn:Hreq.
  2:{ left. rewrite settle_idle; [reflexivity |]. intros inv' Hinv'. congruence. }
  rewrite (settle_spec i o s inv origin dest Hi Hreq), Hcan.
  destruct (drawing origin dest o) as [pl |] eqn:Hd.
  2:{ left. unfold completion. rewrite Hd. apply clear_request_widget. }
  right. exists origin, dest, pl.
  assert (Hcl : Route.cleanup s = Some i).
  { destruct (decide (Route.cleanup s = Some i)) as [E | E]; [exact E |].
    rewrite (Ho i inv Hi E) in Hcan. discriminate. }
  split; [unfold in_flight; rewrite Hcl, Hi, Hreq; reflexivity |].
  split; [exact Hd |]. split; [| reflexivity].
  unfold current_ok in Hc. rewrite Hcl in Hc.
  destruct Hc as (_ & inv' & Hi' & _ & Hpending).
  rewrite Hi in Hi'. injection Hi' as <-.
  destruct (Hpending _ Hreq) as [Href _]. exact Href.
Qed.

Lemma commit_without_teardown (r : Render) (s : Route.State) :
  tears_down (Route.Commit r) s = false ->
  Route.map_layers (Route.commit r s) = Route.map_layers s
  /\ Route.routeLayerRef (Route.commit r s) = Route.routeLayerRef s
  /\ Route.invocations (Route.commit r s) = Route.invocations s
  /\ Route.cleanup (Route.commit r s) = Route.cleanup s.
Proof.
  intros Ht. simpl in Ht. rewrite commit_eq. cbv zeta. rewrite Ht.
  destruct (deps_changed (Route.reset_deps <$> _) _); repeat split.
Qed.

(** A commit that tears the effect down with the map present starts one
    run, the next in number; its request is pending exactly when the
    render is eligible. *)
Lemma commit_in_flight (r : Render) (s : Route.State) :
  route_inv s ->
  tears_down (Route.Commit r) s = true ->
  mapInstance r = true ->
  in_flight (Route.commit r s)
  = (fun od => (length (Route.invocations s), od)) <$> Route.eligible r
  /\ length (Route.invocations (Route.commit r s)) = S (length (Route.invocations s)).
Proof.
  intros Hinv Ht Hmap. simpl in Ht. rewrite commit_eq. cbv zeta. rewrite Ht.
  destruct (run_cleanup_quiescent s Hinv) as (_ & Hlen & _).
  set (s2 := if deps_changed _ _ then Route.reset_effect (Route.run_cleanup s)
             else Route.run_cleanup s).
  assert (Hlen2 : length (Route.invocations s2) = length (Route.invocations s)).
  { subst s2.
    destruct (deps_changed (Route.reset_deps <$> Route.committed s) (Route.reset_deps r));
      exact Hlen. }
  clearbody s2. unfold Route.route_effect. rewrite Hmap.
  unfold in_flight. cbn [negb Route.set_committed Route.set_cleanup Route.set_invocations
    Route.cleanup Route.invocations].
  rewrite remove_route_invocations.
  rewrite list_lookup_middle by reflexivity. cbn [Route.request].
  rewrite length_app, Hlen2. simpl.
  split; [destruct (Route.eligible r); reflexivity | lia].
Qed.

(** *** A path without points *)

(** The payload has a first route whose path has no point. *)
Definition empty_path (o : Route.Outcome) : bool :=
  match o with
  | Route.Resolved (Route.DataObj (Some (route0 :: _))) =>
      match Route.geometry route0 with
      | Some [] => true
      | _ => false
      end
  | _ => false
  end.













(** A response with one route whose path has no point. *)
Definition empty_path_route : Route.Outcome :=
  Route.Resolved (Route.DataObj (Some [{| Route.geometry := Some [] |}])).


(** The same trace, evaluated: two overlays after the response, and the
    solid one still on the map after the route is hidden. *)
Example empty_path_scenario :
  let s' := Route.run [Route.Commit (without_map props_routed);
                       Route.Commit (with_map props_routed);
                       Route.Settle 0 empty_path_route] Route.init in
  Route.map_layers s'
  = [(0, Route.solid []);
     (1, Route.dashed [user_at; {| lat := 41000000; lng := 29000000 |}])]
  /\ Route.view s'
     = [FitBounds [user_at; {| lat := 41000000; lng := 29000000 |}]]
  /\ Route.map_layers (Route.step (Route.Commit (with_map props_idle)) s')
     = [(0, Route.solid [])]
  /\ Route.map_layers (Route.step Route.Unmount s') = [(0, Route.solid [])].
Proof. repeat split. Qed.

Example scenario_C_one_solid_overlay :
  let s := Route.run [Route.Commit (without_map props_routed);
                      Route.Commit (with_map props_routed);
                      Route.Settle 0 two_point_route] Route.init in
  Route.map_layers s
  = [(0, Route.solid [{| lat := 41010000; lng := 29010000 |};
                      {| lat := 41000000; lng := 29000000 |}])]
  /\ Route.fits s = 1.
Proof. split; reflexivity. Qed.

Example scenario_D_one_dashed_overlay :
  let s := Route.run [Route.Commit (without_map props_routed);
                      Route.Commit (with_map props_routed);
                      Route.Settle 0 Route.Rejected] Route.init in
  Route.map_layers s
  = [(0, Route.dashed [user_at; {| lat := 41000000; lng := 29000000 |}])]
  /\ Route.fits s = 1.
Proof. split; reflexivity. Qed.

(** *** Failure of the geometry request *)

(** The request rejects, or reading the payload throws. *)
Definition throws (o : Route.Outcome) : bool :=
  match o with
  | Route.Rejected => true
  | Route.Resolved Route.DataNull => true
  | Route.Resolved (Route.DataObj (Some (route0 :: _))) =>
      match Route.geometry route0 with
      | None => true
      | Some _ => false
      end
  | Route.Resolved (Route.DataObj _) => false
  end.

(** The payload has no [routes], or an empty list of them. *)
Definition no_route (o : Route.Outcome) : bool :=
  match o with
  | Route.Resolved (Route.DataObj None) => true
  | Route.Resolved (Route.DataObj (Some [])) => true
  | _ => false
  end.

(** The failures of the spec: network error, malformed response, no
    route found. *)
Definition failed (o : Route.Outcome) : bool := throws o || no_route o.

(** The reading of the spec: after any failure of the pending request
    the dashed line from origin to destination is on the map. *)
Definition fallback_on_every_failure : Prop :=
  forall (es : list Route.Event) (i : nat) (origin : LatLng) (dest : Station.t)
         (o : Route.Outcome),
    in_flight (Route.run es Route.init) = Some (i, (origin, dest)) ->
    failed o = true ->
    exists l,
      In (l, Route.dashed [origin; Station.location dest])
         (Route.map_layers (Route.settle i o (Route.run es Route.init))).

(** A payload with an empty list of routes draws nothing. *)
Lemma C2_counterexample : ~ fallback_on_every_failure.
Proof.
  intros H.
  destruct (H [Route.Commit (with_map props_routed)] 0 user_at station_1
              (Route.Resolved (Route.DataObj (Some []))) eq_refl eq_refl) as [l Hin].
  vm_compute in Hin. exact Hin.
Qed.

Lemma drawing_throws (origin : LatLng) (dest : Station.t) (o : Route.Outcome) :
  throws o = true ->
  drawing origin dest o = Some (Route.dashed [origin; Station.location dest]).
Proof.
  destruct o as [| [| [[| route0 rest] |]]]; simpl; try discriminate; try reflexivity.
  destruct (Route.geometry route0); [discriminate | reflexivity].
Qed.

Lemma drawing_no_route (origin : LatLng) (dest : Station.t) (o : Route.Outcome) :
  no_route o = true -> drawing origin dest o = None.
Proof.
  destruct o as [| [| [[| route0 rest] |]]]; simpl; try discriminate; reflexivity.
Qed.

(** C2, amended.  While the request of the current effect run is pending
    it is the request for the origin and destination of the render
    committed last.  If it rejects, or reading the payload throws (no
    payload, or a first route without coordinates), the dashed line from
    the origin to the destination is attached to the map and is the
    overlay [routeLayerRef] holds, and the view is fitted to the two
    points unless it was fitted already.  If the payload has no routes,
    or an empty list of them, no overlay is attached, [routeLayerRef]
    stays empty and no view command is issued. *)
Theorem C2_fallback_when_request_throws
    (es : list Route.Event) (i : nat) (origin : LatLng) (dest : Station.t)
    (thrown empty : Route.Outcome) :
  in_flight (Route.run es Route.init) = Some (i, (origin, dest)) ->
  throws thrown = true ->
  no_route empty = true ->
  let s := Route.run es Route.init in
  (exists rc, Route.committed s = Some rc /\ Route.eligible rc = Some (origin, dest))
  /\ Route.map_layers (Route.settle i thrown s)
     = Route.map_layers s
       ++ [(Route.next_layer s, Route.dashed [origin; Station.location dest])]
  /\ Route.routeLayerRef (Route.settle i thrown s) = Some (Route.next_layer s)
  /\ Route.view (Route.settle i thrown s)
     = Route.view s
       ++ (if Route.hasFittedRouteRef s then []
           else [FitBounds [origin; Station.location dest]])
  /\ Route.map_layers (Route.settle i empty s) = Route.map_layers s
  /\ Route.routeLayerRef (Route.settle i empty s) = None
  /\ Route.view (Route.settle i empty s) = Route.view s.
Proof.
  intros Hf Ht Hn s. pose proof (route_inv_reachable es) as Hinv. fold s in Hinv, Hf.
  destruct (in_flight_inv s i _ Hinv Hf)
    as (inv & _ & _ & _ & _ & Href & rc & Hrc & _ & Hel).
  destruct (clear_request_widget i s) as [Hw _].
  unfold widget in Hw. injection Hw as Hlay Href' Hnext Hview Hfit _ _.
  split; [exists rc; split; assumption |].
  rewrite !(settle_in_flight s i origin dest _ Hinv Hf).
  destruct (completion_fields origin dest thrown (Route.clear_request i s))
    as (_ & _ & _ & Hdraw).
  destruct (completion_fields origin dest empty (Route.clear_request i s))
    as (_ & _ & _ & Hnone).
  unfold fit_target in Hdraw.
  rewrite (drawing_throws origin dest thrown Ht) in Hdraw.
  rewrite (drawing_no_route origin dest empty Hn) in Hnone.
  destruct Hdraw as (_ & Hv & Hst).
  unfold stumbles in Hst. simpl in Hst, Hv. rewrite andb_false_r in Hst.
  destruct Hst as [Hl Hr].
  rewrite Hl, Hr, Hv, Hnone, Hlay, Hnext, Hview, Hfit, Href'.
  repeat split. exact Href.
Qed.

Lemma C2_fallback_when_request_throws_witness :
  let s := Route.run [Route.Commit (with_map props_routed)] Route.init in
  let empty := Route.Resolved (Route.DataObj (Some [])) in
  (exists rc, Route.committed s = Some rc /\ Route.eligible rc = Some (user_at, station_1))
  /\ Route.map_layers (Route.settle 0 Route.Rejected s)
     = Route.map_layers s
       ++ [(Route.next_layer s, Route.dashed [user_at; Station.location station_1])]
  /\ Route.routeLayerRef (Route.settle 0 Route.Rejected s) = Some (Route.next_layer s)
  /\ Route.view (Route.settle 0 Route.Rejected s)
     = Route.view s
       ++ (if Route.hasFittedRouteRef s then []
           else [FitBounds [user_at; Station.location station_1]])
  /\ Route.map_layers (Route.settle 0 empty s) = Route.map_layers s
  /\ Route.routeLayerRef (Route.settle 0 empty s) = None
  /\ Route.view (Route.settle 0 empty s) = Route.view s.
Proof.
  exact (C2_fallback_when_request_throws [Route.Commit (with_map props_routed)] 0
           user_at station_1 Route.Rejected (Route.Resolved (Route.DataObj (Some [])))
           eq_refl eq_refl eq_refl).
Defined.

(** *** Fitting the view once *)

(** The events under which the destination and the route flag stay those
    of render [rc]: completions, and commits whose [routeDestination] is
    the same object and whose [showRoute] is the same. *)
Definition keeps_route (rc : Render) (e : Route.Event) : bool :=
  match e with
  | Route.Commit r => bool_decide (Route.reset_deps r = Route.reset_deps rc)
  | Route.Settle _ _ => true
  | Route.Unmount => false
  end.

Definition same_route (rc : Render) (s : Route.State) : Prop :=
  exists rc', Route.committed s = Some rc' /\ Route.reset_deps rc' = Route.reset_deps rc.

(** From [s] to [s']: once fitted, no further view command; not yet
    fitted, at most one fit, which sets the flag. *)
Definition fit_progress (s s' : Route.State) : Prop :=
  (Route.hasFittedRouteRef s = true ->
   Route.view s' = Route.view s /\ Route.hasFittedRouteRef s' = true)
  /\ (Route.hasFittedRouteRef s = false ->
      (Route.view s' = Route.view s /\ Route.hasFittedRouteRef s' = false)
      \/ (exists bounds, Route.view s' = Route.view s ++ [FitBounds bounds])
         /\ Route.hasFittedRouteRef s' = true).

Lemma fit_progress_same (s s' : Route.State) :
  Route.view s' = Route.view s ->
  Route.hasFittedRouteRef s' = Route.hasFittedRouteRef s ->
  fit_progress s s'.
Proof.
  intros Hv Hf. unfold fit_progress. rewrite Hv, Hf.
  split; intros H; [split; [reflexivity | exact H] | left; split; [reflexivity | exact H]].
Qed.

Lemma fit_progress_trans (s1 s2 s3 : Route.State) :
  fit_progress s1 s2 -> fit_progress s2 s3 -> fit_progress s1 s3.
Proof.
  intros [A1 B1] [A2 B2]. split.
  - intros H. destruct (A1 H) as [E1 F1]. destruct (A2 F1) as [E2 F2].
    split; [congruence | exact F2].
  - intros H. destruct (B1 H) as [[E1 F1] | [[b E1] F1]].
    + destruct (B2 F1) as [[E2 F2] | [[b E2] F2]].
      * left. split; congruence.
      * right. split; [exists b; congruence | exact F2].
    + destruct (A2 F1) as [E2 F2]. right. split; [exists b; congruence | exact F2].
Qed.

Lemma fits_snoc (s s' : Route.State) (bounds : list LatLng) :
  Route.view s' = Route.view s ++ [FitBounds bounds] ->
  Route.fits s' = Route.fits s + 1.
Proof.
  intros Hv. unfold Route.fits. rewrite Hv, List.filter_app, length_app. reflexivity.
Qed.

Lemma fit_progress_fits (s s' : Route.State) :
  fit_progress s s' ->
  Route.fits s' <= Route.fits s + 1
  /\ (Route.hasFittedRouteRef s = true -> Route.fits s' = Route.fits s).
Proof.
  intros [A B]. split.
  - destruct (Route.hasFittedRouteRef s).
    + destruct (A eq_refl) as [Hv _]. unfold Route.fits. rewrite Hv. lia.
    + destruct (B eq_refl) as [[Hv _] | [[b Hv] _]].
      * unfold Route.fits. rewrite Hv. lia.
      * rewrite (fits_snoc s s' b Hv). lia.
  - intros H. destruct (A H) as [Hv _]. unfold Route.fits. rewrite Hv. reflexivity.
Qed.

Lemma run_cleanup_frame (s : Route.State) :
  Route.view (Route.run_cleanup s) = Route.view s
  /\ Route.hasFittedRouteRef (Route.run_cleanup s) = Route.hasFittedRouteRef s.
Proof.
  unfold Route.run_cleanup, Route.route_cleanup.
  destruct (Route.cleanup s) as [c |]; [| split; reflexivity].
  destruct (cancel_widget c s) as [Hw _].
  unfold widget in Hw. injection Hw as _ _ _ Hv Hf _ _.
  unfold Route.remove_route.
  destruct (Route.routeLayerRef (Route.cancel c s)); simpl; split; assumption.
Qed.

Lemma route_effect_frame (r : Render) (s : Route.State) :
  Route.view (Route.route_effect r s) = Route.view s
  /\ Route.hasFittedRouteRef (Route.route_effect r s) = Route.hasFittedRouteRef s.
Proof.
  unfold Route.route_effect, Route.remove_route.
  destruct (mapInstance r); simpl; [| split; reflexivity].
  destruct (Route.routeLayerRef s); split; reflexivity.
Qed.

(** A commit issues no view command; it clears the fitted flag when the
    destination or the route flag changed (or at mount), and otherwise
    keeps it. *)
Lemma commit_fitted (r : Render) (s : Route.State) :
  Route.view (Route.commit r s) = Route.view s
  /\ Route.hasFittedRouteRef (Route.commit r s) =
       (if deps_changed (Route.reset_deps <$> Route.committed s) (Route.reset_deps r)
        then false else Route.hasFittedRouteRef s)
  /\ Route.committed (Route.commit r s) = Some r.
Proof.
  rewrite commit_eq. cbv zeta.
  destruct (run_cleanup_frame s) as [Hv Hf].
  destruct (deps_changed (Route.route_deps <$> _) _);
    destruct (deps_changed (Route.reset_deps <$> _) _); simpl;
    rewrite ?(proj1 (route_effect_frame r _)), ?(proj2 (route_effect_frame r _));
    simpl; rewrite ?Hv, ?Hf; repeat split.
Qed.

Lemma settle_fitted (i : nat) (o : Route.Outcome) (s : Route.State) :
  route_inv s ->
  fit_progress s (Route.settle i o s)
  /\ Route.committed (Route.settle i o s) = Route.committed s.
Proof.
  intros Hinv.
  destruct (settle_cases i o s Hinv) as [Hw | (origin & dest & pl & _ & Hd & _ & ->)].
  - unfold widget in Hw. injection Hw as _ _ _ Hv Hf _ Hc.
    split; [apply fit_progress_same; assumption | exact Hc].
  - destruct (completion_fields origin dest o (Route.clear_request i s))
      as (_ & _ & Hc & Hdraw).
    rewrite Hd in Hdraw. destruct Hdraw as (Hf & Hv & _).
    destruct (clear_request_widget i s) as [Hw _].
    unfold widget in Hw. injection Hw as _ _ _ Hv' Hf' _ Hc'.
    rewrite Hv', Hf' in Hv. rewrite Hc' in Hc.
    split; [| exact Hc].
    split; intros H; rewrite H in Hv.
    + split; [| exact Hf]. rewrite Hv, app_nil_r. reflexivity.
    + right. split; [| exact Hf]. eexists. exact Hv.
Qed.

Lemma step_keeps_route (rc : Render) (e : Route.Event) (s : Route.State) :
  route_inv s ->
  same_route rc s ->
  keeps_route rc e = true ->
  same_route rc (Route.step e s) /\ fit_progress s (Route.step e s).
Proof.
  intros Hinv (rc' & Hcom & Hdeps) Hk.
  destruct e as [r | i o |]; simpl in *; [| | discriminate].
  - apply bool_decide_eq_true in Hk.
    destruct (commit_fitted r s) as (Hv & Hf & Hc).
    split; [exists r; split; assumption |].
    apply fit_progress_same; [exact Hv |].
    rewrite Hf, Hcom. simpl.
    rewrite bool_decide_eq_true_2 by congruence. reflexivity.
  - destruct (settle_fitted i o s Hinv) as [Hp Hc].
    split; [exists rc'; split; congruence | exact Hp].
Qed.

Lemma run_keeps_route (rc : Render) (es : list Route.Event) (s : Route.State) :
  route_inv s ->
  same_route rc s ->
  forallb (keeps_route rc) es = true ->
  same_route rc (Route.run es s) /\ fit_progress s (Route.run es s).
Proof.
  revert s. induction es as [| e es IH]; intros s Hinv Hsame Hk.
  - split; [exact Hsame | apply fit_progress_same; reflexivity].
  - simpl in Hk. apply andb_true_iff in Hk as [Hk Hks].
    destruct (step_keeps_route rc e s Hinv Hsame Hk) as [Hsame' Hp].
    destruct (IH (Route.step e s) (route_inv_step e s Hinv) Hsame' Hks) as [Hsame'' Hp'].
    split; [exact Hsame'' |].
    exact (fit_progress_trans _ _ _ Hp Hp').
Qed.

Lemma clear_request_frame (i : nat) (s : Route.State) :
  Route.view (Route.clear_request i s) = Route.view s
  /\ Route.hasFittedRouteRef (Route.clear_request i s) = Route.hasFittedRouteRef s
  /\ Route.committed (Route.clear_request i s) = Route.committed s.
Proof.
  destruct (clear_request_widget i s) as [Hw _].
  unfold widget in Hw. injection Hw as _ _ _ Hv Hf _ Hc. repeat split; assumption.
Qed.

(** C5, amended.  Let the commit of render [r], with the map, start the
    request for origin and destination, at a moment when the view is not
    fitted for the destination of [r], and let [o] be an outcome that
    draws an overlay, solid or dashed.  The commit itself issues no view
    command.  The completion of the request fits the view once and sets
    the fitted flag: to the points of the overlay it draws, or, when the
    returned path has no point, to origin and destination, the points of
    the fallback drawn after it.  After that, whatever completions and
    commits follow with the same [routeDestination] object and the same
    [showRoute] (the origin, the stations, the picking flag may change,
    requests may be sent again and draw again), no view command is
    issued and the flag stays set; counted from the commit of [r], such
    events fit the view at most once in all.  The flag is cleared by a
    later commit exactly when that commit has another [routeDestination]
    object, also one with the same content, or another [showRoute]. *)
Theorem C5_fit_once
    (es0 es es' : list Route.Event) (r : Render) (origin : LatLng) (dest : Station.t)
    (o : Route.Outcome) :
  mapInstance r = true ->
  Route.eligible r = Some (origin, dest) ->
  tears_down (Route.Commit r) (Route.run es0 Route.init) = true ->
  Route.hasFittedRouteRef (Route.commit r (Route.run es0 Route.init)) = false ->
  drawing origin dest o <> None ->
  forallb (keeps_route r) es = true ->
  forallb (keeps_route r) es' = true ->
  let s0 := Route.run es0 Route.init in
  let s1 := Route.commit r s0 in
  let s2 := Route.settle (length (Route.invocations s0)) o s1 in
  let s3 := Route.run es s2 in
  Route.view s1 = Route.view s0
  /\ Route.view s2 = Route.view s0 ++ [FitBounds (fit_target origin dest o)]
  /\ Route.hasFittedRouteRef s2 = true
  /\ Route.view s3 = Route.view s2
  /\ Route.hasFittedRouteRef s3 = true
  /\ Route.fits (Route.run es' s1) <= Route.fits s0 + 1
  /\ forall r', Route.hasFittedRouteRef (Route.commit r' s3)
                = bool_decide (Route.reset_deps r' = Route.reset_deps r).
Proof.
  intros Hmap Hel Ht Hfit Hd Hk Hk' s0 s1 s2 s3.
  pose proof (route_inv_reachable es0) as Hinv0. fold s0 in Hinv0, Ht, Hfit.
  fold s1 in Hfit.
  pose proof (route_inv_commit r s0 Hinv0) as Hinv1. fold s1 in Hinv1.
  destruct (commit_fitted r s0) as (Hv1 & _ & Hc1). fold s1 in Hv1, Hc1.
  destruct (commit_in_flight r s0 Hinv0 Ht Hmap) as [Hfl _]. fold s1 in Hfl.
  rewrite Hel in Hfl. simpl in Hfl.
  assert (Hs2 : s2 = completion origin dest o
                       (Route.clear_request (length (Route.invocations s0)) s1))
    by apply (settle_in_flight s1 _ origin dest o Hinv1 Hfl).
  destruct (completion_fields origin dest o
              (Route.clear_request (length (Route.invocations s0)) s1))
    as (_ & _ & Hc2 & Hdraw).
  destruct (clear_request_frame (length (Route.invocations s0)) s1) as (Hvc & Hfc & Hcc).
  rewrite <- Hs2 in Hdraw, Hc2.
  destruct (drawing origin dest o) as [pl |] eqn:Hpl; [| contradiction].
  destruct Hdraw as (Hf2 & Hv2 & _).
  rewrite Hvc, Hfc, Hfit, Hv1 in Hv2. rewrite Hcc, Hc1 in Hc2.
  pose proof (route_inv_settle (length (Route.invocations s0)) o s1 Hinv1) as Hinv2.
  fold s2 in Hinv2.
  assert (Hsame2 : same_route r s2) by (exists r; split; [exact Hc2 | reflexivity]).
  assert (Hsame1 : same_route r s1) by (exists r; split; [exact Hc1 | reflexivity]).
  destruct (run_keeps_route r es s2 Hinv2 Hsame2 Hk) as [(rc3 & Hc3 & Hdeps3) [HA _]].
  fold s3 in Hc3, HA. destruct (HA Hf2) as [Hv3 Hf3].
  destruct (run_keeps_route r es' s1 Hinv1 Hsame1 Hk') as [_ Hp].
  split; [exact Hv1 |]. split; [exact Hv2 |]. split; [exact Hf2 |].
  split; [exact Hv3 |]. split; [exact Hf3 |].
  split.
  - destruct (fit_progress_fits _ _ Hp) as [Hle _].
    unfold Route.fits in Hle |- *. rewrite Hv1 in Hle. exact Hle.
  - intros r'. destruct (commit_fitted r' s3) as (_ & -> & _).
    rewrite Hc3, Hf3. simpl. rewrite <- Hdeps3.
    destruct (decide (Route.reset_deps rc3 = Route.reset_deps r')) as [E | E].
    + rewrite !bool_decide_eq_true_2 by congruence. reflexivity.
    + rewrite !bool_decide_eq_false_2 by congruence. reflexivity.
Qed.

Definition props_routed_moved : Props :=
  {| stations := [station_1; station_2];
     userLocation := Some {| lat := 41010500; lng := 29010500 |};
     selectedStation := Some station_1;
     routeDestination := Some station_1;
     onStationSelect := 10;
     onDeselect := Some 11;
     showRoute := true;
     isPickingLocation := false;
     onLocationPicked := Some 12;
     onCreateRoute := Some 13;
     onRemoveRoute := Some 14;
     onReportStatus := Some 15;
     stations_ref := 1;
     userLocation_ref := 4;
     selectedStation_ref := 3;
     routeDestination_ref := 3 |}.

Lemma C5_fit_once_witness :
  let r := with_map props_routed in
  let s0 := Route.run [Route.Commit (without_map props_routed)] Route.init in
  let s1 := Route.commit r s0 in
  let s2 := Route.settle (length (Route.invocations s0)) two_point_route s1 in
  let s3 := Route.run [Route.Commit (with_map props_routed_moved);
                       Route.Settle 1 Route.Rejected] s2 in
  Route.view s1 = Route.view s0
  /\ Route.view s2
     = Route.view s0 ++ [FitBounds (fit_target user_at station_1 two_point_route)]
  /\ Route.hasFittedRouteRef s2 = true
  /\ Route.view s3 = Route.view s2
  /\ Route.hasFittedRouteRef s3 = true
  /\ Route.fits (Route.run [Route.Settle 0 (Route.Resolved (Route.DataObj None));
                            Route.Commit (with_map props_routed_moved);
                            Route.Settle 1 two_point_route] s1)
     <= Route.fits s0 + 1
  /\ forall r', Route.hasFittedRouteRef (Route.commit r' s3)
                = bool_decide (Route.reset_deps r' = Route.reset_deps r).
Proof.
  apply (C5_fit_once
           [Route.Commit (without_map props_routed)]
           [Route.Commit (with_map props_routed_moved); Route.Settle 1 Route.Rejected]
           [Route.Settle 0 (Route.Resolved (Route.DataObj None));
            Route.Commit (with_map props_routed_moved);
            Route.Settle 1 two_point_route]
           (with_map props_routed) user_at station_1 two_point_route);
    try reflexivity.
  simpl. discriminate.
Defined.

(** The first response fits the view to the returned path; the origin
    moves; the new overlay is drawn and the view is not fitted again. *)
Example moved_origin_is_not_refitted :
  let s := Route.run [Route.Commit (without_map props_routed);
                      Route.Commit (with_map props_routed);
                      Route.Settle 0 two_point_route;
                      Route.Commit (with_map props_routed_moved);
                      Route.Settle 1 Route.Rejected] Route.init in
  map snd (Route.map_layers s)
  = [Route.dashed [{| lat := 41010500; lng := 29010500 |};
                   {| lat := 41000000; lng := 29000000 |}]]
  /\ Route.view s
     = [FitBounds [{| lat := 41010000; lng := 29010000 |};
                   {| lat := 41000000; lng := 29000000 |}]].
Proof. split; reflexivity. Qed.

(** The same destination passed as a new object: the flag is cleared and
    the next response fits the view again. *)
Definition props_routed_new_destination : Props :=
  {| stations := [station_1; station_2];
     userLocation := Some user_at;
     selectedStation := Some station_1;
     routeDestination := Some station_1;
     onStationSelect := 10;
     onDeselect := Some 11;
     showRoute := true;
     isPickingLocation := false;
     onLocationPicked := Some 12;
     onCreateRoute := Some 13;
     onRemoveRoute := Some 14;
     onReportStatus := Some 15;
     stations_ref := 1;
     userLocation_ref := 2;
     selectedStation_ref := 3;
     routeDestination_ref := 6 |}.

Example new_destination_object_is_refitted :
  let s := Route.run [Route.Commit (with_map props_routed);
                      Route.Settle 0 two_point_route;
                      Route.Commit (with_map props_routed_new_destination);
                      Route.Settle 1 two_point_route] Route.init in
  length (Route.map_layers s) = 1 /\ Route.fits s = 2.
Proof. split; reflexivity. Qed.

(** The reading of the spec: while origin, destination and route flag
    keep their values, the view is fitted at most once. *)
Definition same_triple (rc : Render) (e : Route.Event) : bool :=
  match e with
  | Route.Commit r =>
      bool_decide (userLocation r = userLocation rc)
      && bool_decide (routeDestination r = routeDestination rc)
      && bool_decide (showRoute r = showRoute rc)
  | Route.Settle _ _ => true
  | Route.Unmount => false
  end.

Definition fit_once_per_triple : Prop :=
  forall (es0 es : list Route.Event) (rc : Render),
    Route.committed (Route.run es0 Route.init) = Some rc ->
    forallb (same_triple rc) es = true ->
    Route.fits (Route.run es (Route.run es0 Route.init))
    <= Route.fits (Route.run es0 Route.init) + 1.

(** The destination passed again as a new object with the same content:
    the reset effect runs and the second response fits the view again. *)
Lemma C5_counterexample : ~ fit_once_per_triple.
Proof.
  intros H.
  specialize (H [Route.Commit (with_map props_routed)]
                [Route.Settle 0 two_point_route;
                 Route.Commit (with_map props_routed_new_destination);
                 Route.Settle 1 two_point_route]
                (with_map props_routed) eq_refl eq_refl).
  vm_compute in H. lia.
Qed.

(** A response that arrives after the origin moved is dropped. *)
Example stale_response_is_dropped :
  let s := Route.run [Route.Commit (with_map props_routed);
                      Route.Commit (with_map props_routed_moved);
                      Route.Settle 0 two_point_route] Route.init in
  Route.map_layers s = [] /\ Route.view s = [].
Proof. split; reflexivity. Qed.
(** * Further properties *)

(** ** The handler registry across renders *)

Lemma sync_registry_deps (p q : Props) :
  Popup.registry_deps p = Popup.registry_deps q -> Popup.sync p = Popup.sync q.
Proof. unfold Popup.registry_deps, Popup.sync. intros [= -> -> -> ->]. reflexivity. Qed.

Definition refs_inv (s : Popup.Refs) : Prop :=
  forall p, Popup.committed s = Some p -> Popup.registry s = Popup.sync p.

Lemma refs_inv_commit (p : Props) (s : Popup.Refs) :
  refs_inv s -> Popup.registry (Popup.commit p s) = Popup.sync p.
Proof.
  intros Hinv. unfold Popup.commit. simpl.
  destruct (deps_changed _ _) eqn:Hch; [reflexivity |].
  destruct (Popup.committed s) as [q |] eqn:Hq; simpl in Hch; [| discriminate].
  apply negb_false_iff, bool_decide_eq_true in Hch.
  rewrite (Hinv q Hq). apply sync_registry_deps, Hch.
Qed.

Lemma refs_inv_commits (ps : list Props) (s : Popup.Refs) :
  refs_inv s -> refs_inv (Popup.commits ps s).
Proof.
  revert s. induction ps as [| p ps IH]; intros s Hs; [exact Hs |].
  apply IH. intros q [= <-]. apply refs_inv_commit, Hs.
Qed.

(** After any sequence of renders the registry holds the handlers of the
    latest one, although the effect that fills it is skipped when no
    handler changed: a click on a bound route button runs the listener
    against the handlers of the latest render. *)
Theorem registry_holds_latest_handlers
    (p0 : Props) (ps : list Props) (p : Props) (b : Popup.Button) :
  let s := Popup.commits (ps ++ [p]) (Popup.useRefs p0) in
  Popup.registry s = Popup.sync p
  /\ Popup.click_route (Popup.registry s) (Popup.addEventListener (Popup.cloneNode b))
     = match bool_decide (Popup.data_action b = Some "remove"), onRemoveRoute p with
       | true, Some h => [CallRemoveRoute h]
       | _, _ => match onCreateRoute p with
                 | Some h => [CallCreateRoute h]
                 | None => []
                 end
       end.
Proof.
  intros s.
  assert (Hreg : Popup.registry s = Popup.sync p).
  { subst s. unfold Popup.commits. rewrite fold_left_app. simpl.
    apply refs_inv_commit. apply refs_inv_commits. intros q [=]. }
  split; [exact Hreg |].
  rewrite Hreg. unfold Popup.click_route. simpl. apply app_nil_r.
Qed.

(** ** Rebinding the popup buttons *)

Lemma bindPopupButtons_idempotent (c : Popup.Container) :
  Popup.bindPopupButtons (Popup.bindPopupButtons c) = Popup.bindPopupButtons c.
Proof.
  unfold Popup.bindPopupButtons. simpl.
  destruct (Popup.routeBtn c), (Popup.reportBtn c); reflexivity.
Qed.

Lemma bindPopupButtons_iter (n : nat) (c : Popup.Container) :
  Nat.iter (S n) Popup.bindPopupButtons c = Popup.bindPopupButtons c.
Proof.
  induction n as [| n IH]; [reflexivity |].
  change (Nat.iter (S (S n)) Popup.bindPopupButtons c)
    with (Popup.bindPopupButtons (Nat.iter (S n) Popup.bindPopupButtons c)).
  rewrite IH. apply bindPopupButtons_idempotent.
Qed.

(** However many times the popup is opened, and whatever listeners its
    buttons carried before, each button ends with one listener: a click
    runs the route listener once and the report listener once. *)
Theorem rebinding_never_stacks_listeners
    (n : nat) (c : Popup.Container) (reg : Popup.Registry) :
  let c' := Nat.iter (S n) Popup.bindPopupButtons c in
  (forall b, Popup.routeBtn c = Some b ->
     exists b', Popup.routeBtn c' = Some b'
                /\ Popup.click_route reg b' = Popup.route_listener reg (Popup.data_action b))
  /\ (forall b, Popup.reportBtn c = Some b ->
        exists b', Popup.reportBtn c' = Some b'
                   /\ Popup.click_report reg b'
                      = Popup.report_listener reg (Popup.data_station_id b)).
Proof.
  intros c'. subst c'. rewrite bindPopupButtons_iter.
  split; intros b Hb; unfold Popup.bindPopupButtons; simpl; rewrite Hb;
    eexists; (split; [reflexivity |]).
  - unfold Popup.click_route. simpl. apply app_nil_r.
  - unfold Popup.click_report. simpl. apply app_nil_r.
Qed.

(** ** The last popup event *)

Lemma arbiter_run_snoc (reg : Popup.Registry) (timeline : list (nat * Arbiter.PopupEvent))
    (t : nat) (e : Arbiter.PopupEvent) (s : Arbiter.State) :
  Arbiter.run reg (timeline ++ [(t, e)]) s
  = Arbiter.handle t e (Arbiter.advance reg t (Arbiter.run reg timeline s)).
Proof.
  revert s. induction timeline as [| [now e'] rest IH]; intros s; simpl; [reflexivity |].
  apply IH.
Qed.

Lemma timeouts_without_flag (reg : Popup.Registry) (pending : list nat) (s : Arbiter.State) :
  Arbiter.isSwitchingPopup s = false ->
  fold_left (fun acc _ => Arbiter.on_timeout reg acc) pending s = s.
Proof.
  intros Hf. induction pending as [| due rest IH]; simpl; [reflexivity |].
  unfold Arbiter.on_timeout at 2. rewrite Hf. exact IH.
Qed.

Lemma settle_after_open (reg : Popup.Registry) (s : Arbiter.State) :
  Arbiter.calls (Arbiter.settle reg (Arbiter.on_popupopen s)) = Arbiter.calls s.
Proof.
  unfold Arbiter.settle. rewrite timeouts_without_flag; reflexivity.
Qed.

Lemma settle_after_close (reg : Popup.Registry) (t : nat) (s : Arbiter.State) :
  Arbiter.calls (Arbiter.settle reg (Arbiter.on_popupclose t s))
  = Arbiter.calls s ++ match Popup.onDeselectRef reg with
                       | Some h => [CallDeselect h]
                       | None => []
                       end.
Proof.
  unfold Arbiter.settle. simpl.
  destruct (Arbiter.timers s ++ [t + Arbiter.delay]) as [| due rest] eqn:E.
  { destruct (Arbiter.timers s); discriminate. }
  simpl. unfold Arbiter.on_timeout at 2. simpl.
  rewrite timeouts_without_flag; reflexivity.
Qed.

(** Whatever happened before: when the last popup event is a close, the
    registered deselect handler is called exactly once after it; when
    the last popup event is an open, no call follows it. *)
Theorem last_popup_event_decides
    (reg : Popup.Registry) (h : Handler) (timeline : list (nat * Arbiter.PopupEvent))
    (t : nat) :
  Popup.onDeselectRef reg = Some h ->
  (let s := Arbiter.run reg (timeline ++ [(t, Arbiter.PopupClose)]) Arbiter.init in
   Arbiter.calls (Arbiter.settle reg s) = Arbiter.calls s ++ [CallDeselect h])
  /\ (let s := Arbiter.run reg (timeline ++ [(t, Arbiter.PopupOpen)]) Arbiter.init in
      Arbiter.calls (Arbiter.settle reg s) = Arbiter.calls s).
Proof.
  intros Hh. split; cbv zeta; rewrite arbiter_run_snoc; simpl.
  - rewrite settle_after_close, Hh. reflexivity.
  - apply settle_after_open.
Qed.

Lemma last_popup_event_decides_witness :
  (let s := Arbiter.run registry_of_idle (two_switches ++ [(400, Arbiter.PopupClose)])
              Arbiter.init in
   Arbiter.calls (Arbiter.settle registry_of_idle s) = Arbiter.calls s ++ [CallDeselect 11])
  /\ (let s := Arbiter.run registry_of_idle (two_switches ++ [(400, Arbiter.PopupOpen)])
                 Arbiter.init in
      Arbiter.calls (Arbiter.settle registry_of_idle s) = Arbiter.calls s).
Proof.
  exact (last_popup_event_decides registry_of_idle 11 two_switches 400 eq_refl).
Defined.

(** ** Markers of a list with distinct ids *)

Lemma filter_or_length {A} (f g : A -> bool) (l : list A) :
  length (List.filter (fun a => f a || g a) l)
  <= length (List.filter f l) + length (List.filter g l).
Proof.
  induction l as [| a l IH]; simpl; [lia |].
  destruct (f a), (g a); simpl; lia.
Qed.

Lemma filter_absent_id (x : string) (l : list Station.t) :
  ~ In x (map Station.id l) ->
  List.filter (fun st => bool_decide (x = Station.id st)) l = [].
Proof.
  induction l as [| st l IH]; simpl; [reflexivity |].
  intros Hnot. rewrite bool_decide_eq_false_2 by (intros ->; apply Hnot; left; reflexivity).
  apply IH. intros Hin. apply Hnot. right. exact Hin.
Qed.

Lemma filter_distinct_id (x : string) (l : list Station.t) :
  List.NoDup (map Station.id l) ->
  length (List.filter (fun st => bool_decide (x = Station.id st)) l) <= 1.
Proof.
  induction l as [| st l IH]; simpl; [lia |].
  intros Hnd. apply List.NoDup_cons_iff in Hnd as [Hnot Hnd].
  destruct (bool_decide (x = Station.id st)) eqn:E.
  - apply bool_decide_eq_true in E. subst x.
    rewrite (filter_absent_id _ l Hnot). simpl. lia.
  - apply IH, Hnd.
Qed.

Lemma selected_distinct (r : Render) :
  List.NoDup (map Station.id (stations r)) ->
  length (List.filter (Markers.isSelected r) (stations r)) <= 1.
Proof.
  intros Hnd. unfold Markers.isSelected.
  destruct (selectedStation r) as [s0 |].
  - apply (filter_distinct_id (Station.id s0)), Hnd.
  - induction (stations r) as [| st l IH]; simpl; [lia |].
    apply List.NoDup_cons_iff in Hnd as [_ Hnd]. apply IH, Hnd.
Qed.

Lemma destination_distinct (r : Render) :
  List.NoDup (map Station.id (stations r)) ->
  length (List.filter (Markers.isDestination r) (stations r)) <= 1.
Proof.
  intros Hnd. unfold Markers.isDestination.
  destruct (routeDestination r) as [s0 |].
  - apply (filter_distinct_id (Station.id s0)), Hnd.
  - induction (stations r) as [| st l IH]; simpl; [lia |].
    apply List.NoDup_cons_iff in Hnd as [_ Hnd]. apply IH, Hnd.
Qed.

Lemma build_opens_popup (r : Render) (st : Station.t) :
  Markers.opens_popup (Markers.build r st) = Markers.isSelected r st.
Proof.
  unfold Markers.build.
  destruct (Markers.isSelected r st), (Markers.isDestination r st); reflexivity.
Qed.

(** When the station ids are distinct, a reconciliation schedules the
    opening of at most one popup and builds at most two large icons (the
    selected station and the destination). *)
Theorem distinct_ids_open_one_popup
    (r : Render) (s : Markers.State) (old : list Markers.Marker) :
  List.NoDup (map Station.id (stations r)) ->
  mapInstance r = true ->
  Markers.clusterGroupRef s = Some old ->
  let ms := Markers.markers (Markers.stations_effect r s) in
  length (List.filter Markers.opens_popup ms) <= 1
  /\ length (List.filter is_custom ms) <= 2.
Proof.
  intros Hnd Hmap Hcg ms. subst ms.
  rewrite (stations_effect_markers r s old Hmap Hcg).
  rewrite (filter_length_map (Markers.build r) Markers.opens_popup (Markers.isSelected r))
    by apply build_opens_popup.
  rewrite (filter_length_map (Markers.build r) is_custom (highlighted r))
    by apply is_custom_build.
  pose proof (selected_distinct r Hnd) as Hs.
  pose proof (destination_distinct r Hnd) as Hd.
  split; [exact Hs |].
  pose proof (filter_or_length (Markers.isSelected r) (Markers.isDestination r) (stations r))
    as Hor.
  unfold highlighted. lia.
Qed.

Lemma distinct_ids_open_one_popup_witness :
  let ms := Markers.markers (Markers.stations_effect (with_map props_routed) Markers.init) in
  length (List.filter Markers.opens_popup ms) <= 1
  /\ length (List.filter is_custom ms) <= 2.
Proof.
  apply (distinct_ids_open_one_popup (with_map props_routed) Markers.init []).
  - simpl. repeat constructor; simpl; intuition discriminate.
  - reflexivity.
  - reflexivity.
Defined.

(** ** The click listener and the cursor of coordinate picking *)

Definition cursor_ok (c : option Render) (s : Markers.State) : Prop :=
  Markers.cursor s =
    if match c with Some rc => picking_active rc | None => false end
    then "crosshair" else "".

Lemma picking_teardown_cursor (c : option Render) (s : Markers.State) :
  listeners_ok c s -> cursor_ok c s ->
  Markers.cursor (Markers.picking_teardown s) = "".
Proof.
  unfold listeners_ok, cursor_ok, Markers.picking_teardown.
  destruct (Markers.picking_cleanup s) as [l |] eqn:Hcl; [reflexivity |].
  destruct c as [rc |]; [| intros _ H; exact H].
  destruct (picking_active rc); [| intros _ H; exact H].
  intros (l & _ & Hl). discriminate.
Qed.

Lemma picking_effect_cursor (r : Render) (s : Markers.State) :
  Markers.cursor s = "" -> cursor_ok (Some r) (Markers.picking_effect r s).
Proof.
  intros Hc. unfold cursor_ok, picking_active, Markers.picking_effect.
  destruct (mapInstance r); simpl; [| exact Hc].
  destruct (isPickingLocation r); simpl; [reflexivity | exact Hc].
Qed.

Lemma cursor_phase (r : Render) (c : option Render) (s : Markers.State) :
  listeners_ok c s -> cursor_ok c s ->
  cursor_ok (Some r)
    (if deps_changed (Markers.picking_deps <$> c) (Markers.picking_deps r)
     then Markers.picking_effect r (Markers.picking_teardown s) else s).
Proof.
  intros Hl Hc.
  destruct (deps_changed _ _) eqn:Hch.
  - apply picking_effect_cursor, (picking_teardown_cursor c s Hl Hc).
  - destruct c as [rc |]; simpl in Hch; [| discriminate].
    apply negb_false_iff, bool_decide_eq_true in Hch.
    unfold cursor_ok, picking_active in *. unfold Markers.picking_deps in Hch.
    injection Hch as Hp _ Hm. rewrite <- Hp, <- Hm. exact Hc.
Qed.

Lemma stations_effect_cursor (r : Render) (s : Markers.State) :
  Markers.cursor (Markers.stations_effect r s) = Markers.cursor s.
Proof.
  unfold Markers.stations_effect.
  destruct (mapInstance r), (Markers.clusterGroupRef s); reflexivity.
Qed.

Lemma commit_cursor_ok (r : Render) (s : Markers.State) :
  markers_inv s -> cursor_ok (Markers.committed s) s ->
  cursor_ok (Some r) (Markers.commit r s).
Proof.
  intros [Hl _] Hc. rewrite markers_commit_eq.
  pose proof (cursor_phase r _ s Hl Hc) as H.
  unfold cursor_ok in *. cbv zeta.
  change (Markers.cursor (Markers.set_committed r ?x)) with (Markers.cursor x).
  destruct (deps_changed (Markers.stations_deps <$> _) _); [| exact H].
  rewrite stations_effect_cursor. exact H.
Qed.

Lemma commits_cursor_ok (rs : list Render) (s : Markers.State) :
  markers_inv s -> cursor_ok (Markers.committed s) s ->
  markers_inv (Markers.commits rs s)
  /\ cursor_ok (Markers.committed (Markers.commits rs s)) (Markers.commits rs s).
Proof.
  revert s. induction rs as [| r rs IH]; intros s Hinv Hc; [split; assumption |].
  simpl. destruct (commit_markers_inv r s Hinv) as [Hinv' Hcom].
  apply IH; [exact Hinv' |].
  rewrite Hcom. apply commit_cursor_ok; assumption.
Qed.

(** After any sequence of commits the map carries one click listener,
    that of the latest render, and the crosshair cursor, exactly when
    the latest render has the map and is picking a coordinate; otherwise
    it carries none and the cursor is reset.  Listeners do not pile up. *)
Theorem picking_listener_never_leaks (rs : list Render) (r : Render) :
  let s := Markers.commits (rs ++ [r]) Markers.init in
  if mapInstance r && isPickingLocation r
  then (exists l, Markers.click_listeners s = [(l, onLocationPicked r)])
       /\ Markers.cursor s = "crosshair"
  else Markers.click_listeners s = [] /\ Markers.cursor s = "".
Proof.
  intros s.
  destruct (commits_cursor_ok (rs ++ [r]) Markers.init markers_inv_init eq_refl)
    as [[Hl _] Hc].
  fold s in Hl, Hc.
  assert (Hcom : Markers.committed s = Some r).
  { subst s. rewrite markers_commits_snoc. reflexivity. }
  rewrite Hcom in Hl, Hc. unfold listeners_ok, cursor_ok, picking_active in Hl, Hc.
  destruct (mapInstance r && isPickingLocation r).
  - destruct Hl as (l & Hl & _). split; [exists l; exact Hl | exact Hc].
  - destruct Hl as [Hl _]. split; assumption.
Qed.

(** ** The station handler captured by the markers *)






(** A new [stations] array with the same stations rebuilds the markers:
    a click then calls the new [onStationSelect]. *)
Definition props_idle_new_array : Props :=
  {| stations := [station_1; station_2];
     userLocation := Some user_at;
     selectedStation := None;
     routeDestination := None;
     onStationSelect := 99;
     onDeselect := Some 11;
     showRoute := false;
     isPickingLocation := false;
     onLocationPicked := Some 12;
     onCreateRoute := Some 13;
     onRemoveRoute := Some 14;
     onReportStatus := Some 15;
     stations_ref := 12;
     userLocation_ref := 2;
     selectedStation_ref := 3;
     routeDestination_ref := 3 |}.

Example new_stations_array_takes_the_new_handler :
  map Markers.marker_click
    (Markers.markers
       (Markers.commits [with_map props_idle; with_map props_idle_new_array] Markers.init))
  = map (fun st => [CallStationSelect 99 st]) [station_1; station_2].
Proof. reflexivity. Qed.

(** ** The flights of the view *)

Definition flown_to_user (rs : list Render) (s : UserMarker.State) : Prop :=
  (UserMarker.userMarkerRef s = None -> UserMarker.view s = [])
  /\ (UserMarker.view s = []
      \/ exists r loc, In r rs /\ mapInstance r = true /\ userLocation r = Some loc
                       /\ selectedStation r = None
                       /\ UserMarker.view s = [FlyTo loc 14]).

Lemma flown_to_user_commit (rs : list Render) (r : Render) (s : UserMarker.State) :
  flown_to_user rs s -> flown_to_user (rs ++ [r]) (UserMarker.commit r s).
Proof.
  intros [Hnone Hview].
  assert (Hold : UserMarker.view s = []
                 \/ exists r0 loc, In r0 (rs ++ [r]) /\ mapInstance r0 = true
                                   /\ userLocation r0 = Some loc
                                   /\ selectedStation r0 = None
                                   /\ UserMarker.view s = [FlyTo loc 14]).
  { destruct Hview as [H | (r0 & loc & Hin & H)]; [left; exact H |].
    right. exists r0, loc. split; [apply in_or_app; left; exact Hin | exact H]. }
  unfold flown_to_user, UserMarker.commit. simpl.
  destruct (deps_changed _ _); [| split; assumption].
  unfold UserMarker.location_effect.
  destruct (mapInstance r) eqn:Hmap; simpl; [| split; assumption].
  destruct (userLocation r) as [loc |] eqn:Hu; [| split; assumption].
  destruct (UserMarker.userMarkerRef s) as [m |] eqn:Href; simpl.
  - split; [discriminate | exact Hold].
  - rewrite (Hnone eq_refl). simpl. split; [discriminate |].
    destruct (selectedStation r) eqn:Hsel; [left; reflexivity |].
    right. exists r, loc. split; [apply in_or_app; right; left; reflexivity |].
    repeat split; assumption.
Qed.

(** Over the whole life of the component the user-location effect moves
    the view at most once: its view commands are none, or the one flight
    at zoom 14 to the location of a render that had the map, a location
    and no selected station. *)
Theorem user_flight_at_most_once (rs : list Render) :
  let s := UserMarker.commits rs UserMarker.init in
  UserMarker.view s = []
  \/ exists r loc, In r rs /\ mapInstance r = true /\ userLocation r = Some loc
                   /\ selectedStation r = None
                   /\ UserMarker.view s = [FlyTo loc 14].
Proof.
  intros s. subst s.
  enough (H : flown_to_user rs (UserMarker.commits rs UserMarker.init)) by apply H.
  induction rs as [| r rs IH] using rev_ind.
  - split; [reflexivity | left; reflexivity].
  - unfold UserMarker.commits. rewrite fold_left_app. simpl.
    apply flown_to_user_commit, IH.
Qed.

Lemma user_commit_view (r : Render) (s : UserMarker.State) :
  UserMarker.view (UserMarker.commit r s) = UserMarker.view s
  \/ (selectedStation r = None
      /\ length (UserMarker.view (UserMarker.commit r s)) = S (length (UserMarker.view s))).
Proof.
  unfold UserMarker.commit. simpl.
  destruct (deps_changed _ _); [| left; reflexivity].
  unfold UserMarker.location_effect.
  destruct (mapInstance r); simpl; [| left; reflexivity].
  destruct (userLocation r); [| left; reflexivity].
  destruct (UserMarker.userMarkerRef s); simpl; [left; reflexivity |].
  destruct (selectedStation r); [left; apply app_nil_r |].
  right. split; [reflexivity |]. rewrite length_app. simpl. lia.
Qed.

Lemma center_commit_view (r : Render) (s : Center.State) :
  Center.view (Center.commit r s) = Center.view s
  \/ (selectedStation r <> None
      /\ length (Center.view (Center.commit r s)) = S (length (Center.view s))).
Proof.
  unfold Center.commit. simpl.
  destruct (deps_changed _ _); [| left; reflexivity].
  rewrite center_effect_view. unfold recenter.
  destruct (selectedStation r); [| left; apply app_nil_r].
  destruct (_ && _); [| left; apply app_nil_r].
  right. split; [discriminate |]. rewrite length_app. simpl. lia.
Qed.

(** One commit issues at most one view command: the flight to the user
    needs no selected station, the flight to the selection needs one,
    and the route effect issues none before a response arrives. *)
Theorem one_commit_one_view_command
    (r : Render) (su : UserMarker.State) (sc : Center.State) (sr : Route.State) :
  length (UserMarker.view (UserMarker.commit r su))
  + length (Center.view (Center.commit r sc))
  + length (Route.view (Route.commit r sr))
  <= length (UserMarker.view su) + length (Center.view sc) + length (Route.view sr) + 1.
Proof.
  destruct (commit_fitted r sr) as [-> _].
  destruct (user_commit_view r su) as [-> | [Hu ->]];
    destruct (center_commit_view r sc) as [-> | [Hc ->]]; try lia.
  contradiction.
Qed.

(** ** The overlay and the routing inputs *)

(** The overlay [routeLayerRef] holds is on the map and belongs to the
    render committed last: that render is eligible for routing, and the
    overlay is a solid path or the dashed line between its origin and
    its destination. *)
Definition shown_ok (s : Route.State) : Prop :=
  forall l, Route.routeLayerRef s = Some l ->
    exists pl rc origin dest,
      In (l, pl) (Route.map_layers s)
      /\ Route.committed s = Some rc /\ mapInstance rc = true
      /\ Route.eligible rc = Some (origin, dest)
      /\ (Route.dashArray pl = None
          \/ pl = Route.dashed [origin; Station.location dest]).

Lemma drawing_shape (origin : LatLng) (dest : Station.t) (o : Route.Outcome)
    (pl : Route.Polyline) :
  drawing origin dest o = Some pl ->
  Route.dashArray pl = None \/ pl = Route.dashed [origin; Station.location dest].
Proof.
  destruct o as [| [| [[| route0 rest] |]]]; simpl; try discriminate.
  - intros [= <-]. right. reflexivity.
  - intros [= <-]. right. reflexivity.
  - destruct (Route.geometry route0); intros [= <-]; [left | right]; reflexivity.
Qed.

Lemma shown_ok_step (e : Route.Event) (s : Route.State) :
  route_inv s -> shown_ok s -> shown_ok (Route.step e s).
Proof.
  intros Hinv Hs.
  destruct (tears_down e s) eqn:Ht.
  { destruct (teardown_quiesces e s Hinv Ht) as (Hnone & _).
    intros l Hl. rewrite Hnone in Hl. discriminate. }
  destruct e as [r | i o |]; simpl in *; [| | discriminate].
  - destruct (commit_without_teardown r s) as (Hlay & Href & _); [exact Ht |].
    destruct (commit_fitted r s) as (_ & _ & Hcom).
    apply deps_unchanged in Ht.
    destruct (Route.committed s) as [rc0 |] eqn:Hc0; [| discriminate].
    assert (Hdeps : Route.route_deps rc0 = Route.route_deps r) by (simpl in Ht; congruence).
    destruct (route_deps_eligible rc0 r Hdeps) as [He Hm].
    intros l Hl. rewrite Href in Hl.
    destruct (Hs l Hl) as (pl & rc & origin & dest & Hin & Hrc & Hmap & Hel & Hshape).
    rewrite Hc0 in Hrc. injection Hrc as <-.
    exists pl, r, origin, dest. rewrite Hcom, Hlay.
    split; [exact Hin |]. split; [reflexivity |].
    split; [congruence |]. split; [congruence | exact Hshape].
  - destruct (settle_cases i o s Hinv)
      as [Hw | (origin & dest & pl' & Hf & Hd & _ & Heq)].
    + unfold widget in Hw. injection Hw as Hlay Href _ _ _ _ Hcom.
      intros l Hl. rewrite Href in Hl. rewrite Hlay, Hcom. exact (Hs l Hl).
    + rewrite Heq.
      destruct (completion_fields origin dest o (Route.clear_request i s))
        as (_ & _ & Hcom & Hdraw).
      rewrite Hd in Hdraw. destruct Hdraw as (_ & _ & Hst).
      destruct (clear_request_frame i s) as (_ & _ & Hcom').
      rewrite Hcom' in Hcom.
      destruct (in_flight_inv s i _ Hinv Hf)
        as (_ & _ & _ & _ & _ & _ & rc & Hrc & Hmap & Hel).
      intros l Hl. rewrite Hcom.
      destruct (stumbles pl' (Route.clear_request i s)); destruct Hst as [Hlay Href];
        rewrite Href in Hl; injection Hl as <-; rewrite Hlay.
      * exists (Route.dashed [origin; Station.location dest]), rc, origin, dest.
        split; [apply in_or_app; right; right; left; reflexivity |].
        split; [exact Hrc |]. split; [exact Hmap |]. split; [exact Hel |].
        right. reflexivity.
      * exists pl', rc, origin, dest.
        split; [apply in_or_app; right; left; reflexivity |].
        split; [exact Hrc |]. split; [exact Hmap |]. split; [exact Hel |].
        exact (drawing_shape origin dest o pl' Hd).
Qed.

Lemma shown_ok_run (es : list Route.Event) (s : Route.State) :
  route_inv s -> shown_ok s -> shown_ok (Route.run es s).
Proof.
  revert s. induction es as [| e es IH]; intros s Hinv Hs; [exact Hs |].
  apply IH; [apply route_inv_step, Hinv | apply shown_ok_step; assumption].
Qed.

(** In every reachable state, [routeLayerRef] holds an overlay only
    while the latest render shows the route, has an origin and a
    destination, is not picking a coordinate and has the map; that
    overlay is on the map, and when it is dashed it joins the origin and
    the destination of that render, never those of an earlier one. *)
Theorem tracked_overlay_belongs_to_latest_render (es : list Route.Event) (l : nat) :
  Route.routeLayerRef (Route.run es Route.init) = Some l ->
  exists pl rc origin dest,
    In (l, pl) (Route.map_layers (Route.run es Route.init))
    /\ Route.committed (Route.run es Route.init) = Some rc
    /\ mapInstance rc = true /\ showRoute rc = true
    /\ userLocation rc = Some origin /\ routeDestination rc = Some dest
    /\ isPickingLocation rc = false
    /\ (Route.dashArray pl = None \/ pl = Route.dashed [origin; Station.location dest]).
Proof.
  intros Hl.
  assert (Hs : shown_ok (Route.run es Route.init)).
  { apply shown_ok_run; [apply route_inv_init |]. intros l0 [=]. }
  destruct (Hs l Hl) as (pl & rc & origin & dest & Hin & Hrc & Hmap & Hel & Hshape).
  exists pl, rc, origin, dest.
  unfold Route.eligible in Hel.
  destruct (showRoute rc); [| discriminate].
  destruct (userLocation rc) as [o0 |]; [| discriminate].
  destruct (routeDestination rc) as [d0 |]; [| discriminate].
  destruct (isPickingLocation rc); [discriminate |].
  simpl in Hel. injection Hel as <- <-.
  split; [exact Hin |]. split; [exact Hrc |]. split; [exact Hmap |].
  repeat (split; [reflexivity |]). exact Hshape.
Qed.

Lemma tracked_overlay_belongs_to_latest_render_witness :
  exists pl rc origin dest,
    In (1, pl)
      (Route.map_layers
         (Route.run [Route.Commit (with_map props_routed); Route.Settle 0 empty_path_route]
            Route.init))
    /\ Route.committed
         (Route.run [Route.Commit (with_map props_routed); Route.Settle 0 empty_path_route]
            Route.init) = Some rc
    /\ mapInstance rc = true /\ showRoute rc = true
    /\ userLocation rc = Some origin /\ routeDestination rc = Some dest
    /\ isPickingLocation rc = false
    /\ (Route.dashArray pl = None \/ pl = Route.dashed [origin; Station.location dest]).
Proof.
  apply (tracked_overlay_belongs_to_latest_render
           [Route.Commit (with_map props_routed); Route.Settle 0 empty_path_route] 1).
  reflexivity.
Defined.

(** ** The order of coordinates *)

Lemma waypoints_decoded (origin : LatLng) (dest : Station.t) :
  map (fun coord : Z * Z => {| lat := snd coord; lng := fst coord |})
    (Route.waypoints origin dest)
  = [origin; Station.location dest].
Proof.
  unfold Route.waypoints. simpl.
  destruct origin, (Station.location dest). reflexivity.
Qed.

(** The request writes each coordinate as longitude, latitude and the
    response is read as longitude, latitude: when the first route of the
    response is the two requested points, the solid overlay that is
    attached and stored in [routeLayerRef] runs over the origin and the
    destination themselves, and the first fit of the view is to these
    two points. *)
Theorem echoed_waypoints_draw_origin_and_destination
    (es : list Route.Event) (i : nat) (origin : LatLng) (dest : Station.t)
    (rest : list Route.RouteJson) :
  in_flight (Route.run es Route.init) = Some (i, (origin, dest)) ->
  let s := Route.run es Route.init in
  let o := Route.Resolved
             (Route.DataObj
                (Some ({| Route.geometry := Some (Route.waypoints origin dest) |} :: rest))) in
  Route.map_layers (Route.settle i o s)
  = Route.map_layers s
    ++ [(Route.next_layer s, Route.solid [origin; Station.location dest])]
  /\ Route.routeLayerRef (Route.settle i o s) = Some (Route.next_layer s)
  /\ Route.view (Route.settle i o s)
     = Route.view s
       ++ (if Route.hasFittedRouteRef s then []
           else [FitBounds [origin; Station.location dest]]).
Proof.
  intros Hf s o.
  pose proof (route_inv_reachable es) as Hinv. fold s in Hinv, Hf.
  rewrite (settle_in_flight s i origin dest o Hinv Hf).
  destruct (completion_fields origin dest o (Route.clear_request i s))
    as (_ & _ & _ & Hdraw).
  unfold fit_target in Hdraw.
  subst o. cbn [drawing Route.geometry] in Hdraw. rewrite waypoints_decoded in Hdraw.
  destruct Hdraw as (_ & Hv & Hst).
  unfold stumbles in Hst. simpl in Hst, Hv. rewrite andb_false_r in Hst.
  destruct Hst as [Hl Hr].
  destruct (clear_request_widget i s) as [Hw _].
  unfold widget in Hw. injection Hw as Hlay _ Hnext Hview Hfit _ _.
  rewrite Hl, Hr, Hv, Hlay, Hnext, Hview, Hfit. repeat split.
Qed.

Lemma echoed_waypoints_draw_origin_and_destination_witness :
  let s := Route.run [Route.Commit (with_map props_routed)] Route.init in
  let o := Route.Resolved
             (Route.DataObj
                (Some ({| Route.geometry := Some (Route.waypoints user_at station_1) |} :: []))) in
  Route.map_layers (Route.settle 0 o s)
  = Route.map_layers s
    ++ [(Route.next_layer s, Route.solid [user_at; Station.location station_1])]
  /\ Route.routeLayerRef (Route.settle 0 o s) = Some (Route.next_layer s)
  /\ Route.view (Route.settle 0 o s)
     = Route.view s
       ++ (if Route.hasFittedRouteRef s then []
           else [FitBounds [user_at; Station.location station_1]]).
Proof.
  exact (echoed_waypoints_draw_origin_and_destination
           [Route.Commit (with_map props_routed)] 0 user_at station_1 [] eq_refl).
Defined.

(** ** One request per change of the routing inputs *)




(** The position of the user passed as a new object with the same
    coordinates: the effect is torn down and a second request is sent. *)
Definition props_routed_new_location : Props :=
  {| stations := [station_1; station_2];
     userLocation := Some user_at;
     selectedStation := Some station_1;
     routeDestination := Some station_1;
     onStationSelect := 10;
     onDeselect := Some 11;
     showRoute := true;
     isPickingLocation := false;
     onLocationPicked := Some 12;
     onCreateRoute := Some 13;
     onRemoveRoute := Some 14;
     onReportStatus := Some 15;
     stations_ref := 1;
     userLocation_ref := 11;
     selectedStation_ref := 3;
     routeDestination_ref := 3 |}.

Example new_location_object_sends_a_second_request :
  let s := Route.run [Route.Commit (with_map props_routed);
                      Route.Settle 0 two_point_route] Route.init in
  tears_down (Route.Commit (with_map props_routed_new_location)) s = true
  /\ Route.map_layers (Route.commit (with_map props_routed_new_location) s) = []
  /\ in_flight (Route.commit (with_map props_routed_new_location) s)
     = Some (1, (user_at, station_1))
  /\ tears_down (Route.Commit (with_map props_routed)) s = false
  /\ length (Route.map_layers (Route.commit (with_map props_routed) s)) = 1.
Proof. repeat split. Qed.

(** ** Fits and resets over a whole trace *)

(** The commits of a trace at which the reset effect runs: the mounts, and
    the commits whose [routeDestination] object or [showRoute] is another
    than at the previous commit. *)
Fixpoint resets (es : list Route.Event) (s : Route.State) : nat :=
  match es with
  | [] => 0
  | e :: rest =>
      match e with
      | Route.Commit r =>
          if deps_changed (Route.reset_deps <$> Route.committed s) (Route.reset_deps r)
          then 1 else 0
      | _ => 0
      end + resets rest (Route.step e s)
  end.

Definition fits_paid (s : Route.State) (n : nat) : Prop :=
  Route.fits s <= n
  /\ (Route.hasFittedRouteRef s = false -> Route.committed s <> None -> Route.fits s + 1 <= n).

Lemma fits_paid_step (e : Route.Event) (s : Route.State) (n : nat) :
  route_inv s -> fits_paid s n -> fits_paid (Route.step e s) (n + resets [e] s).
Proof.
  intros Hinv [Hle Hnext]. unfold fits_paid.
  destruct e as [r | i o |]; cbn [Route.step resets].
  - destruct (commit_fitted r s) as (Hv & Hf & Hcom).
    unfold Route.fits. rewrite Hv, Hf, Hcom. fold (Route.fits s).
    destruct (deps_changed _ _) eqn:Hch.
    + split; [lia |]. intros _ _. lia.
    + apply deps_unchanged in Hch.
      destruct (Route.committed s) as [r0 |]; [| discriminate].
      split; [lia |]. intros Hfit _.
      assert (Hsome : Some r0 <> None) by discriminate.
      specialize (Hnext Hfit Hsome). lia.
  - destruct (settle_cases i o s Hinv)
      as [Hw | (origin & dest & pl & Hfl & Hd & _ & Heq)].
    + unfold widget in Hw. injection Hw as _ _ _ Hv Hf _ Hcom.
      unfold Route.fits. rewrite Hv, Hf, Hcom. fold (Route.fits s).
      split; [lia |]. intros Hfit Hc. specialize (Hnext Hfit Hc). lia.
    + rewrite Heq.
      destruct (completion_fields origin dest o (Route.clear_request i s))
        as (_ & _ & _ & Hdraw).
      rewrite Hd in Hdraw. destruct Hdraw as (Hf & Hv & _).
      destruct (clear_request_frame i s) as (Hv' & Hf' & _).
      rewrite Hv', Hf' in Hv. rewrite Hf.
      destruct (in_flight_inv s i _ Hinv Hfl)
        as (_ & _ & _ & _ & _ & _ & rc & Hrc & _).
      split; [| discriminate].
      destruct (Route.hasFittedRouteRef s) eqn:Hfit.
      * unfold Route.fits. rewrite Hv, app_nil_r. fold (Route.fits s). lia.
      * rewrite (fits_snoc _ _ _ Hv).
        assert (Hc : Route.committed s <> None) by congruence.
        specialize (Hnext eq_refl Hc). lia.
  - unfold Route.unmount. destruct (run_cleanup_frame s) as [Hv Hf].
    unfold Route.fits. simpl. rewrite Hv. fold (Route.fits s).
    split; [lia |]. intros _ Hc. contradiction.
Qed.

Lemma fits_paid_run (es : list Route.Event) (s : Route.State) (n : nat) :
  route_inv s -> fits_paid s n -> fits_paid (Route.run es s) (n + resets es s).
Proof.
  revert s n. induction es as [| e es IH]; intros s n Hinv Hp.
  - simpl. rewrite Nat.add_0_r. exact Hp.
  - pose proof (fits_paid_step e s n Hinv Hp) as Hstep.
    pose proof (IH (Route.step e s) _ (route_inv_step e s Hinv) Hstep) as Hrun.
    cbn [resets] in *. rewrite Nat.add_0_r in Hrun.
    replace (n + (match e with
                  | Route.Commit r =>
                      if deps_changed (Route.reset_deps <$> Route.committed s)
                           (Route.reset_deps r) then 1 else 0
                  | _ => 0
                  end + resets es (Route.step e s)))
      with (n + match e with
                | Route.Commit r =>
                    if deps_changed (Route.reset_deps <$> Route.committed s)
                         (Route.reset_deps r) then 1 else 0
                | _ => 0
                end + resets es (Route.step e s)) by lia.
    exact Hrun.
Qed.

(** Over any trace of commits, completions and unmounts, the view is
    moved by [fitBounds] at most once per run of the reset effect, that
    is once per mount and per commit with another [routeDestination]
    object or another [showRoute].  A call of [fitBounds] that throws on
    empty bounds moves nothing and is not counted. *)
Theorem fits_bounded_by_resets (es : list Route.Event) :
  Route.fits (Route.run es Route.init) <= resets es Route.init.
Proof.
  assert (H0 : fits_paid Route.init 0).
  { split; [unfold Route.fits; simpl; lia |]. intros _ Hc. contradiction. }
  destruct (fits_paid_run es Route.init 0 route_inv_init H0) as [H _].
  exact H.
Qed.

Example empty_path_fits_once :
  let es := [Route.Commit (with_map props_routed); Route.Settle 0 empty_path_route] in
  Route.fits (Route.run es Route.init) = 1 /\ resets es Route.init = 1.
Proof. split; reflexivity. Qed.

(** ** A single overlay, when every returned path has a point *)

(** No completion of the trace carries a first route whose path has no
    point. *)
Definition no_empty_path (e : Route.Event) : bool :=
  match e with
  | Route.Settle _ o => negb (empty_path o)
  | _ => true
  end.

(** The map holds the overlay of [routeLayerRef] and no other. *)
Definition layers_ok (s : Route.State) : Prop :=
  match Route.routeLayerRef s with
  | Some l => exists pl, Route.map_layers s = [(l, pl)]
  | None => Route.map_layers s = []
  end.

Lemma layers_ok_remove_route (s : Route.State) :
  layers_ok s ->
  Route.map_layers (Route.remove_route s) = []
  /\ Route.routeLayerRef (Route.remove_route s) = None.
Proof.
  unfold layers_ok, Route.remove_route.
  destruct (Route.routeLayerRef s) as [l |] eqn:E.
  - intros [pl ->]. simpl. rewrite Nat.eqb_refl. split; reflexivity.
  - intros H. split; assumption.
Qed.

Lemma layers_ok_run_cleanup (s : Route.State) :
  route_inv s ->
  layers_ok s ->
  Route.map_layers (Route.run_cleanup s) = []
  /\ Route.routeLayerRef (Route.run_cleanup s) = None.
Proof.
  intros (_ & Hc) H. unfold Route.run_cleanup, Route.route_cleanup.
  unfold current_ok in Hc.
  destruct (Route.cleanup s) as [c |].
  - apply layers_ok_remove_route.
    destruct (cancel_widget c s) as [Hw _].
    unfold widget in Hw. injection Hw as Hlay Href _ _ _ _ _.
    unfold layers_ok. rewrite Hlay, Href. exact H.
  - unfold layers_ok in H. rewrite Hc in H. split; assumption.
Qed.

Lemma route_effect_layers (r : Render) (s : Route.State) :
  Route.routeLayerRef s = None ->
  Route.map_layers (Route.route_effect r s) = Route.map_layers s
  /\ Route.routeLayerRef (Route.route_effect r s) = None.
Proof.
  intros Href. unfold Route.route_effect, Route.remove_route. rewrite Href.
  destruct (mapInstance r); simpl; split; trivial.
Qed.

Lemma drawing_has_points (origin : LatLng) (dest : Station.t) (o : Route.Outcome)
    (pl : Route.Polyline) :
  empty_path o = false ->
  drawing origin dest o = Some pl ->
  Route.points pl <> [].
Proof.
  destruct o as [| [| [[| route0 rest] |]]]; simpl; try discriminate.
  - intros _ [= <-]. discriminate.
  - intros _ [= <-]. discriminate.
  - destruct (Route.geometry route0) as [[| c cs] |]; try discriminate.
    + intros _ [= <-]. discriminate.
    + intros _ [= <-]. discriminate.
Qed.

Lemma layers_ok_step (e : Route.Event) (s : Route.State) :
  route_inv s ->
  layers_ok s ->
  no_empty_path e = true ->
  layers_ok (Route.step e s)
  /\ (tears_down e s = true -> Route.map_layers (Route.step e s) = []).
Proof.
  intros Hinv Hl Hne.
  destruct (layers_ok_run_cleanup s Hinv Hl) as [Hnil Hnone].
  destruct e as [r | i o |]; simpl in *.
  - rewrite commit_eq. cbv zeta.
    destruct (deps_changed (Route.route_deps <$> _) _) eqn:Ht.
    + set (s2 := if deps_changed _ _ then Route.reset_effect (Route.run_cleanup s)
                 else Route.run_cleanup s).
      assert (H2 : Route.map_layers s2 = [] /\ Route.routeLayerRef s2 = None).
      { subst s2.
        destruct (deps_changed (Route.reset_deps <$> Route.committed s) (Route.reset_deps r));
          split; assumption. }
      destruct H2 as [Hnil2 Hnone2].
      destruct (route_effect_layers r s2 Hnone2) as [Hlay Href].
      unfold layers_ok. simpl. rewrite Hlay, Href, Hnil2. split; [reflexivity | trivial].
    + split; [| discriminate].
      destruct (deps_changed (Route.reset_deps <$> _) _); exact Hl.
  - split; [| discriminate].
    destruct (settle_cases i o s Hinv)
      as [Hw | (origin & dest & pl & _ & Hd & Href0 & Heq)].
    + unfold widget in Hw. injection Hw as Hlay Href _ _ _ _ _.
      unfold layers_ok. rewrite Hlay, Href. exact Hl.
    + rewrite Heq.
      destruct (completion_fields origin dest o (Route.clear_request i s))
        as (_ & _ & _ & Hdraw).
      rewrite Hd in Hdraw. destruct Hdraw as (_ & _ & Hst).
      apply negb_true_iff in Hne.
      pose proof (drawing_has_points origin dest o pl Hne Hd) as Hpts.
      unfold stumbles in Hst.
      rewrite (bool_decide_eq_false_2 _ Hpts), andb_false_r in Hst.
      destruct Hst as [Hlay Href].
      destruct (clear_request_widget i s) as [Hw _].
      unfold widget in Hw. injection Hw as Hlay' _ Hnext _ _ _ _.
      unfold layers_ok in Hl. rewrite Href0 in Hl.
      unfold layers_ok. rewrite Href, Hlay, Hlay', Hl. eexists. reflexivity.
  - split; [| intros _; exact Hnil].
    unfold layers_ok, Route.unmount. simpl. rewrite Hnone. exact Hnil.
Qed.

Lemma layers_ok_run (es : list Route.Event) (s : Route.State) :
  route_inv s ->
  layers_ok s ->
  forallb no_empty_path es = true ->
  layers_ok (Route.run es s).
Proof.
  revert s. induction es as [| e es IH]; intros s Hinv Hl Hne; [exact Hl |].
  simpl in Hne. apply andb_true_iff in Hne as [He Hes].
  apply IH; [apply route_inv_step, Hinv | | exact Hes].
  apply (layers_ok_step e s Hinv Hl He).
Qed.

(** As long as no response carries a first route whose path has no
    point, at most one route overlay is on the map, and it is the one
    [routeLayerRef] holds; a change of the routing inputs or an unmount
    leaves the map without overlay at once, before any response; and a
    completion that attaches an overlay finds the map without one. *)
Theorem one_overlay_without_empty_paths (es : list Route.Event) :
  forallb no_empty_path es = true ->
  let s := Route.run es Route.init in
  length (Route.map_layers s) <= 1
  /\ map fst (Route.map_layers s) = option_list (Route.routeLayerRef s)
  /\ (forall e, tears_down e s = true -> Route.map_layers (Route.step e s) = [])
  /\ (forall i o, empty_path o = false ->
        Route.map_layers (Route.settle i o s) <> Route.map_layers s ->
        Route.map_layers s = [] /\ length (Route.map_layers (Route.settle i o s)) = 1).
Proof.
  intros Hne s.
  pose proof (route_inv_reachable es) as Hinv. fold s in Hinv.
  assert (Hl : layers_ok s)
    by (apply layers_ok_run; [apply route_inv_init | reflexivity | exact Hne]).
  assert (Hshape : length (Route.map_layers s) <= 1
                   /\ map fst (Route.map_layers s) = option_list (Route.routeLayerRef s)).
  { unfold layers_ok in Hl. destruct (Route.routeLayerRef s) as [l |].
    - destruct Hl as [pl ->]. simpl. split; [lia | reflexivity].
    - rewrite Hl. simpl. split; [lia | reflexivity]. }
  destruct Hshape as [Hlen Hfst].
  split; [exact Hlen |]. split; [exact Hfst |]. split.
  - intros e Ht.
    destruct e as [r | i o |]; [| discriminate |].
    + apply (layers_ok_step (Route.Commit r) s Hinv Hl eq_refl), Ht.
    + apply (layers_ok_step Route.Unmount s Hinv Hl eq_refl), Ht.
  - intros i o Ho Hch.
    assert (He : no_empty_path (Route.Settle i o) = true) by (simpl; rewrite Ho; reflexivity).
    destruct (layers_ok_step (Route.Settle i o) s Hinv Hl He) as [Hl' _].
    simpl in Hl'.
    destruct (settle_cases i o s Hinv)
      as [Hw | (origin & dest & pl & _ & _ & Href0 & _)].
    + unfold widget in Hw. injection Hw as Hlay _ _ _ _ _ _. contradiction.
    + unfold layers_ok in Hl. rewrite Href0 in Hl. split; [exact Hl |].
      unfold layers_ok in Hl'.
      destruct (Route.routeLayerRef (Route.settle i o s)) as [l |].
      * destruct Hl' as [pl' Hpl']. rewrite Hpl'. reflexivity.
      * rewrite Hl', Hl in Hch. contradiction.
Qed.

Lemma one_overlay_without_empty_paths_witness :
  let s := Route.run [Route.Commit (without_map props_routed);
                      Route.Commit (with_map props_routed);
                      Route.Settle 0 two_point_route;
                      Route.Commit (with_map props_routed_moved);
                      Route.Settle 1 Route.Rejected] Route.init in
  length (Route.map_layers s) <= 1
  /\ map fst (Route.map_layers s) = option_list (Route.routeLayerRef s)
  /\ (forall e, tears_down e s = true -> Route.map_layers (Route.step e s) = [])
  /\ (forall i o, empty_path o = false ->
        Route.map_layers (Route.settle i o s) <> Route.map_layers s ->
        Route.map_layers s = [] /\ length (Route.map_layers (Route.settle i o s)) = 1).
Proof.
  exact (one_overlay_without_empty_paths
           [Route.Commit (without_map props_routed);
            Route.Commit (with_map props_routed);
            Route.Settle 0 two_point_route;
            Route.Commit (with_map props_routed_moved);
            Route.Settle 1 Route.Rejected] eq_refl).
Defined.
